(** * Contact book: fields, records, address book and birthday query

    A shallow embedding of [HW_7_Bot.py].  Python objects are records,
    methods are functions that take the receiver and return the receiver
    after the call together with the outcome of the call, and a raised
    exception is an outcome of its own: what a method has written to an
    object before it raises stays written.

    A Python [str] is a [string] whose characters are read as the code
    points 0..255. *)

From Stdlib Require Import ZArith List String Ascii Bool Lia.
From Stdlib Require Import DecimalString.
Import ListNotations.

Open Scope string_scope.
Open Scope Z_scope.

(** ** Exceptions and outcomes *)

Inductive exn : Type :=
| ValueError (msg : string)
| KeyError (key : string)
| AttributeError (msg : string)
| UnboundLocalError (msg : string)
| OverflowError (msg : string).

Inductive result (A : Type) : Type :=
| Ok (a : A)
| Raise (e : exn).

Arguments Ok {A} a.
Arguments Raise {A} e.

Definition bind {A B : Type} (r : result A) (k : A -> result B) : result B :=
  match r with
  | Ok a => k a
  | Raise e => Raise e
  end.

Notation "x <- r ;; k" := (bind r (fun x => k))
  (at level 100, r at next level, right associativity).

Definition is_ok {A : Type} (r : result A) : bool :=
  match r with Ok _ => true | Raise _ => false end.

(** ** Strings *)

Definition code (c : ascii) : Z := Z.of_N (N_of_ascii c).

Definition len (s : string) : Z := Z.of_nat (String.length s).

Definition in_range (lo hi c : ascii) : bool :=
  (code lo <=? code c) && (code c <=? code hi).

(** The ten characters '0'..'9'. *)
Definition is_decimal (c : ascii) : bool := in_range "0" "9" c.

(** [str.isdigit] accepts, per character, the decimal digits and the
    characters whose numeric type is Digit; below code point 256 the
    latter are the superscripts U+00B2, U+00B3 and U+00B9. *)
Definition isdigit_char (c : ascii) : bool :=
  is_decimal c || (code c =? 178) || (code c =? 179) || (code c =? 185).

Fixpoint all_chars (f : ascii -> bool) (s : string) : bool :=
  match s with
  | EmptyString => true
  | String c r => f c && all_chars f r
  end.

(** [str.isdigit]: all characters are digits and there is at least one. *)
Definition isdigit (s : string) : bool :=
  match s with
  | EmptyString => false
  | _ => all_chars isdigit_char s
  end.

(** ** Fields *)

(** class Field: [__init__] stores [value], [__str__] is [str(self.value)]. *)
Record Field : Type := mkField { value : string }.

(** class Name(Field). *)
Definition Name : Type := Field.
Definition Name_init (v : string) : Name := mkField v.

(** class Phone(Field): the value lives in the private [__value], written
    only by the property setter. *)
Record Phone : Type := mkPhone { Phone_value : string }.

(** Phone.value setter (lines 28-33). *)
Definition Phone_set_value (v : string) : result string :=
  if (len v =? 10) && isdigit v then Ok v
  else Raise (ValueError "Invalid phone number").

(** Phone.__init__: [Field.__init__] assigns [self.value], which already
    goes through the setter; then [__value] is reset and assigned again. *)
Definition Phone_init (v : string) : result Phone :=
  _ <- Phone_set_value v ;;
  v' <- Phone_set_value v ;;
  Ok (mkPhone v').

(** str(phone): Field.__str__ on the property. *)
Definition Phone_str (p : Phone) : string := Phone_value p.

(** ** Calendar dates

    [datetime.date] of the host library: the proleptic Gregorian calendar,
    years 1..9999, with the library's own ordinal arithmetic
    ([_days_before_year], [_ymd2ord], [_ord2ymd]). *)

Record date : Type := mkdate { year : Z; month : Z; day : Z }.

Definition MINYEAR : Z := 1.
Definition MAXYEAR : Z := 9999.
(** date(9999, 12, 31).toordinal() *)
Definition MAXORDINAL : Z := 3652059.

Definition is_leap (y : Z) : bool :=
  (y mod 4 =? 0) && (negb (y mod 100 =? 0) || (y mod 400 =? 0)).

Definition days_in_month (y m : Z) : Z :=
  if m =? 2 then (if is_leap y then 29 else 28)
  else if (m =? 4) || (m =? 6) || (m =? 9) || (m =? 11) then 30
  else 31.

Definition days_before_year (y : Z) : Z :=
  let y' := y - 1 in
  y' * 365 + y' / 4 - y' / 100 + y' / 400.

(** _DAYS_BEFORE_MONTH and _DAYS_IN_MONTH, indexed 1..12 (index 0 is a
    placeholder). *)
Definition DAYS_BEFORE_MONTH (m : Z) : Z :=
  nth (Z.to_nat m) [-1; 0; 31; 59; 90; 120; 151; 181; 212; 243; 273; 304; 334] 0.

Definition DAYS_IN_MONTH (m : Z) : Z :=
  nth (Z.to_nat m) [-1; 31; 28; 31; 30; 31; 30; 31; 31; 30; 31; 30; 31] 0.

Definition days_before_month (y m : Z) : Z :=
  DAYS_BEFORE_MONTH m + (if (2 <? m) && is_leap y then 1 else 0).

Definition ymd2ord (y m d : Z) : Z :=
  days_before_year y + days_before_month y m + d.

Definition DI400Y : Z := 146097.
Definition DI100Y : Z := 36524.
Definition DI4Y : Z := 1461.

Definition ord2ymd (n0 : Z) : date :=
  let n := n0 - 1 in
  let n400 := n / DI400Y in
  let n := n mod DI400Y in
  let y := n400 * 400 + 1 in
  let n100 := n / DI100Y in
  let n := n mod DI100Y in
  let n4 := n / DI4Y in
  let n := n mod DI4Y in
  let n1 := n / 365 in
  let n := n mod 365 in
  let y := y + n100 * 100 + n4 * 4 + n1 in
  if (n1 =? 4) || (n100 =? 4) then mkdate (y - 1) 12 31
  else
    let leapyear := (n1 =? 3) && (negb (n4 =? 24) || (n100 =? 3)) in
    let m := Z.shiftr (n + 50) 5 in
    let preceding := DAYS_BEFORE_MONTH m + (if (2 <? m) && leapyear then 1 else 0) in
    if n <? preceding then
      let m' := m - 1 in
      let preceding' :=
        preceding - (DAYS_IN_MONTH m' + (if (m' =? 2) && leapyear then 1 else 0)) in
      mkdate y m' (n - preceding' + 1)
    else mkdate y m (n - preceding + 1).

Definition Z_str (z : Z) : string := NilEmpty.string_of_int (Z.to_int z).

(** The constructor's range checks ([_check_date_fields]). *)
Definition date_init (y m d : Z) : result date :=
  if negb ((MINYEAR <=? y) && (y <=? MAXYEAR))
  then Raise (ValueError ("year " ++ Z_str y ++ " is out of range"))
  else if negb ((1 <=? m) && (m <=? 12))
  then Raise (ValueError "month must be in 1..12")
  else if negb ((1 <=? d) && (d <=? days_in_month y m))
  then Raise (ValueError "day is out of range for month")
  else Ok (mkdate y m d).

Definition valid_date (t : date) : Prop :=
  MINYEAR <= year t <= MAXYEAR /\ 1 <= month t <= 12 /\
  1 <= day t <= days_in_month (year t) (month t).

Definition toordinal (t : date) : Z := ymd2ord (year t) (month t) (day t).

(** Monday is 0, Sunday is 6. *)
Definition weekday (t : date) : Z := (toordinal t + 6) mod 7.

(** date.__lt__ compares (year, month, day). *)
Definition date_ltb (a b : date) : bool :=
  (year a <? year b) ||
  ((year a =? year b) &&
   ((month a <? month b) || ((month a =? month b) && (day a <? day b)))).

(** (a - b).days *)
Definition date_sub_days (a b : date) : Z := toordinal a - toordinal b.

(** date + timedelta(days=n) *)
Definition date_add_days (t : date) (n : Z) : result date :=
  let o := toordinal t + n in
  if (0 <? o) && (o <=? MAXORDINAL) then Ok (ord2ymd o)
  else Raise (OverflowError "date value out of range").

Definition pad2 (z : Z) : string :=
  if z <? 10 then "0" ++ Z_str z else Z_str z.

(** strftime("%Y.%m.%d"); the year is printed as the C library prints it,
    without padding (years from 1000 on look the same everywhere). *)
Definition strftime (t : date) : string :=
  Z_str (year t) ++ "." ++ pad2 (month t) ++ "." ++ pad2 (day t).

(** ** Parsing a date: strptime(value, "%d.%m.%Y")

    The host library turns the format into a regular expression with one
    named group per directive and matches it at the start of the data; the
    match the backtracking matcher finds first is the one used.  [run]
    lists the matches of an expression in the matcher's order, as pairs of
    the matched text and the remaining input. *)

Inductive regex : Type :=
| Cls (f : ascii -> bool)
| Cat (a b : regex)
| Alt (a b : regex).

Fixpoint run (e : regex) (s : string) : list (string * string) :=
  match e with
  | Cls f =>
      match s with
      | String c r => if f c then [(String c EmptyString, r)] else []
      | EmptyString => []
      end
  | Cat a b =>
      flat_map (fun m1 =>
        map (fun m2 => (fst m1 ++ fst m2, snd m2)) (run b (snd m1))) (run a s)
  | Alt a b => run a s ++ run b s
  end.

Definition chr (c : ascii) : regex := Cls (Ascii.eqb c).
Definition rng (lo hi : ascii) : regex := Cls (in_range lo hi).
(** \d : a decimal digit of any script; below code point 256 these are
    '0'..'9'. *)
Definition re_digit : regex := Cls is_decimal.

(** %d : 3[0-1]|[1-2]\d|0[1-9]|[1-9]| [1-9] *)
Definition re_d : regex :=
  Alt (Cat (chr "3") (rng "0" "1"))
 (Alt (Cat (rng "1" "2") re_digit)
 (Alt (Cat (chr "0") (rng "1" "9"))
 (Alt (rng "1" "9")
      (Cat (chr " ") (rng "1" "9"))))).

(** %m : 1[0-2]|0[1-9]|[1-9] *)
Definition re_m : regex :=
  Alt (Cat (chr "1") (rng "0" "2"))
 (Alt (Cat (chr "0") (rng "1" "9"))
      (rng "1" "9")).

(** %Y : \d\d\d\d *)
Definition re_Y : regex :=
  Cat re_digit (Cat re_digit (Cat re_digit re_digit)).

Definition re_dot : regex := chr ".".

(** All matches of (?P<d>..)\.(?P<m>..)\.(?P<Y>..) at the start of [s]:
    the three groups and the unconsumed rest. *)
Definition format_matches (s : string) : list (string * string * string * string) :=
  flat_map (fun md =>
  flat_map (fun p1 =>
  flat_map (fun mm =>
  flat_map (fun p2 =>
  map (fun my => (fst md, fst mm, fst my, snd my))
      (run re_Y (snd p2)))
      (run re_dot (snd mm)))
      (run re_m (snd p1)))
      (run re_dot (snd md)))
      (run re_d s).

(** int() of a group's text: the number its decimal digits write (below
    code point 256, '0'..'9'); blanks around the digits are ignored. *)
Fixpoint int_acc (acc : Z) (s : string) : Z :=
  match s with
  | EmptyString => acc
  | String c r =>
      if is_decimal c then int_acc (10 * acc + (code c - 48)) r
      else int_acc acc r
  end.

Definition int (s : string) : Z := int_acc 0 s.

(** datetime.strptime(data, "%d.%m.%Y").date().  The texts of the two
    ValueErrors of the match are shortened: the library's also quote the
    data and the format. *)
Definition strptime (data : string) : result date :=
  match format_matches data with
  | [] => Raise (ValueError "time data does not match format")
  | (d, m, y, rest) :: _ =>
      if negb (rest =? "")%string
      then Raise (ValueError "unconverted data remains")
      else date_init (int y) (int m) (int d)
  end.

(** class Birthday(Field): the parsed date is assigned to [value] first and
    [Field.__init__] then overwrites it with the text that was given; any
    ValueError of the parse is replaced by the class's own. *)
Record Birthday : Type := mkBirthday { Birthday_value : string }.

Definition format_error : exn :=
  ValueError "Incorrect date format, please enter in the format: dd.mm.yyyy".

Definition Birthday_init (v : string) : result Birthday :=
  match strptime v with
  | Ok _ => Ok (mkBirthday v)
  | Raise (ValueError _) => Raise format_error
  | Raise e => Raise e
  end.

(** ** class Record *)

Record ContactRecord : Type := mkRecord {
  name : Name;
  phones : list Phone;
  birthday : option Birthday
}.

Definition set_phones (self : ContactRecord) (ps : list Phone) : ContactRecord :=
  mkRecord (name self) ps (birthday self).

Definition Record_init (n : string) : ContactRecord :=
  mkRecord (Name_init n) [] None.

Definition add_phone (self : ContactRecord) (phone_number : string)
  : ContactRecord * result unit :=
  match Phone_init phone_number with
  | Ok p => (set_phones self (phones self ++ [p]), Ok tt)
  | Raise e => (self, Raise e)
  end.

Definition remove_phone (self : ContactRecord) (phone_number : string)
  : ContactRecord :=
  set_phones self
    (filter (fun p => negb (Phone_str p =? phone_number)%string) (phones self)).

(** The loop of [edit_phone] over the phones from some index on.  [phone] is
    the loop variable as the previous iterations left it ([None]: not bound
    yet).  The result is the list as the loop leaves it, and either the
    loop variable at the end or the exception that [Phone(new_phone)]
    raised; the loop has no [break]. *)
Fixpoint edit_phone_loop (old_phone new_phone : string) (ps : list Phone)
    (phone : option Phone) : list Phone * result (option Phone) :=
  match ps with
  | [] => ([], Ok phone)
  | p :: rest =>
      if (Phone_str p =? old_phone)%string then
        match Phone_init new_phone with
        | Raise e => (p :: rest, Raise e)
        | Ok q =>
            let '(rest', r) := edit_phone_loop old_phone new_phone rest (Some p) in
            (q :: rest', r)
        end
      else
        let '(rest', r) := edit_phone_loop old_phone new_phone rest (Some p) in
        (p :: rest', r)
  end.

Definition not_found_msg : string :=
  "Old phone number not found in the contact's phones.".

(** After the loop the test reads the loop variable: the last phone the
    loop visited, as it was before any replacement. *)
Definition edit_phone (self : ContactRecord) (old_phone new_phone : string)
  : ContactRecord * result unit :=
  let '(ps, r) := edit_phone_loop old_phone new_phone (phones self) None in
  let self' := set_phones self ps in
  match r with
  | Raise e => (self', Raise e)
  | Ok None =>
      (self', Raise (UnboundLocalError
         "cannot access local variable 'phone' where it is not associated with a value"))
  | Ok (Some phone) =>
      if negb (Phone_str phone =? old_phone)%string
      then (self', Raise (ValueError not_found_msg))
      else (self', Ok tt)
  end.

Definition find_phone (self : ContactRecord) (phone : string) : option Phone :=
  find (fun p => (Phone_str p =? phone)%string) (phones self).

Definition add_birthday (self : ContactRecord) (b : string)
  : ContactRecord * result unit :=
  match Birthday_init b with
  | Ok b' => (mkRecord (name self) (phones self) (Some b'), Ok tt)
  | Raise e => (self, Raise e)
  end.

(** ** class AddressBook(UserDict)

    [data] is a dict: keys are unique and iteration follows insertion
    order, so it is a list of entries in that order.  Assigning to a key
    that is present keeps its place. *)

Definition dict : Type := list (string * ContactRecord).

Fixpoint dict_set (k : string) (v : ContactRecord) (d : dict) : dict :=
  match d with
  | [] => [(k, v)]
  | (k', v') :: rest =>
      if (k' =? k)%string then (k', v) :: rest
      else (k', v') :: dict_set k v rest
  end.

Fixpoint dict_get (k : string) (d : dict) : option ContactRecord :=
  match d with
  | [] => None
  | (k', v') :: rest => if (k' =? k)%string then Some v' else dict_get k rest
  end.

(** [del d[k]]; [None] when the key is absent. *)
Fixpoint dict_del (k : string) (d : dict) : option dict :=
  match d with
  | [] => None
  | (k', v') :: rest =>
      if (k' =? k)%string then Some rest
      else match dict_del k rest with
           | Some rest' => Some ((k', v') :: rest')
           | None => None
           end
  end.

Definition dict_values (d : dict) : list ContactRecord := map snd d.
Definition dict_keys (d : dict) : list string := map fst d.

(** [today] is the attribute that [find_next_birthday] leaves on the book. *)
Record AddressBook : Type := mkBook {
  data : dict;
  today : option date
}.

Definition AddressBook_init : AddressBook := mkBook [] None.

Definition add_record (self : AddressBook) (record : ContactRecord) : AddressBook :=
  mkBook (dict_set (value (name record)) record (data self)) (today self).

Definition find_record (self : AddressBook) (n : string) : option ContactRecord :=
  dict_get n (data self).

Definition delete (self : AddressBook) (n : string) : AddressBook * result unit :=
  match dict_del n (data self) with
  | Some d => (mkBook d (today self), Ok tt)
  | None => (self, Raise (KeyError n))
  end.

(** One item of the list [find_next_birthday] returns. *)
Record entry : Type := mkEntry {
  entry_name : string;
  congratulation_date : string
}.

(** The date the loop body settles on for one user when the birthday is at
    most a week ahead ([None] otherwise). *)
Definition birthday_this_year (now : date) (birthday_date : date) : result date :=
  bty <- date_init (year now) (month birthday_date) (day birthday_date) ;;
  if date_ltb bty now
  then date_init (year now + 1) (month birthday_date) (day birthday_date)
  else Ok bty.

Definition congrats_date (now bty : date) : result date :=
  if 5 <=? weekday bty
  then date_add_days now (7 - weekday now)
  else Ok bty.

(** The body of the loop (lines 96-113) for one user. *)
Definition next_birthday_of (now : date) (user : ContactRecord)
  : result (option entry) :=
  match birthday user with
  | None => Raise (AttributeError "'NoneType' object has no attribute 'value'")
  | Some b =>
      birthday_date <- strptime (Birthday_value b) ;;
      bty <- birthday_this_year now birthday_date ;;
      let days_until_birthday := date_sub_days bty now in
      if (0 <=? days_until_birthday) && (days_until_birthday <=? 7) then
        c <- congrats_date now bty ;;
        Ok (Some (mkEntry (value (name user)) (strftime c)))
      else Ok None
  end.

Fixpoint next_birthday_loop (now : date) (users : list ContactRecord)
    (upcoming_birthdays : list entry) : result (list entry) :=
  match users with
  | [] => Ok upcoming_birthdays
  | user :: rest =>
      e <- next_birthday_of now user ;;
      next_birthday_loop now rest
        (match e with
         | Some x => upcoming_birthdays ++ [x]
         | None => upcoming_birthdays
         end)
  end.

(** [find_next_birthday(self, weekday)].  [clock] is what
    [datetime.today().date()] returns during the call; the argument
    [weekday] is not read. *)
Definition find_next_birthday (clock : date) (self : AddressBook)
    (weekday_arg : option Z) : AddressBook * result (list entry) :=
  let self' := mkBook (data self) (Some clock) in
  (self', next_birthday_loop clock (dict_values (data self')) []).

(** ** Commands *)

(** The decorator [input_error]: KeyError and ValueError become the
    returned text, anything else goes through. *)
Definition input_error {S : Type} (r : S * result string) : S * result string :=
  match snd r with
  | Raise (KeyError _) => (fst r, Ok "Contact not found.")
  | Raise (ValueError msg) => (fst r, Ok msg)
  | _ => r
  end.

(** The command [birthdays]: the query's entries, one line each. *)
Definition newline : string := String (ascii_of_nat 10) EmptyString.

Definition birthdays_body (clock : date) (args : list string) (book : AddressBook)
  : AddressBook * result string :=
  let '(book', r) := find_next_birthday clock book None in
  match r with
  | Ok upcoming_birthdays =>
      (book',
       Ok (String.concat newline
             (map (fun b => entry_name b ++ "'s birthday is on " ++
                            congratulation_date b) upcoming_birthdays)))
  | Raise e => (book', Raise e)
  end.

Definition birthdays (clock : date) (args : list string) (book : AddressBook)
  : AddressBook * result string :=
  input_error (birthdays_body clock args book).

(** A record handed out by [find], or just passed to [add_record], is the
    very object the book holds under that key: what [add_phone] writes to
    it is written to the book's entry, whether or not the call raises. *)
Definition add_contact_body (args : list string) (book : AddressBook)
  : AddressBook * result string :=
  match args with
  | n :: phone :: _ =>
      let '(book1, record, message) :=
        match find_record book n with
        | None =>
            let record := Record_init n in
            (add_record book record, record, "Contact added.")
        | Some record => (book, record, "Contact updated.")
        end in
      let '(record', r) := add_phone record phone in
      let book2 := mkBook (dict_set n record' (data book1)) (today book1) in
      match r with
      | Ok _ => (book2, Ok message)
      | Raise e => (book2, Raise e)
      end
  | _ => (book, Ok "Insufficient arguments. Required: name and phone number.")
  end.

Definition add_contact (args : list string) (book : AddressBook)
  : AddressBook * result string :=
  input_error (add_contact_body args book).

(** ** The specification's statements, in its own words *)

(** "Replaces exactly the first matching phone (in list order)". *)
Fixpoint replace_first (old : string) (q : Phone) (ps : list Phone) : list Phone :=
  match ps with
  | [] => []
  | p :: rest =>
      if (Phone_str p =? old)%string then q :: rest
      else p :: replace_first old q rest
  end.

(** "Removes all phones whose textual value equals [x]", the others staying
    in their order: [without x ps ps']. *)
Inductive without (x : string) : list Phone -> list Phone -> Prop :=
| without_nil : without x [] []
| without_drop p ps ps' :
    Phone_str p = x -> without x ps ps' -> without x (p :: ps) ps'
| without_keep p ps ps' :
    Phone_str p <> x -> without x ps ps' -> without x (p :: ps) (p :: ps').

(** "Length exactly 10 and every character a decimal digit". *)
Definition ten_decimal_digits (raw : string) : bool :=
  (len raw =? 10) && all_chars is_decimal raw.

Definition digit_value (c : ascii) : Z := code c - 48.

(** "Matches the pattern DD.MM.YYYY denoting a valid calendar date": two
    digits, a full stop, two digits, a full stop and four digits, read as
    the day, month and year of a day that exists. *)
Definition DD_MM_YYYY (raw : string) : bool :=
  match raw with
  | String d1 (String d2 (String p1 (String m1 (String m2 (String p2
      (String y1 (String y2 (String y3 (String y4 EmptyString))))))))) =>
      forallb is_decimal [d1; d2; m1; m2; y1; y2; y3; y4] &&
      Ascii.eqb p1 "." && Ascii.eqb p2 "." &&
      is_ok (date_init
               (1000 * digit_value y1 + 100 * digit_value y2 +
                10 * digit_value y3 + digit_value y4)
               (10 * digit_value m1 + digit_value m2)
               (10 * digit_value d1 + digit_value d2))
  | _ => false
  end.

(** "Reachable from the empty book by any sequence of AddRecord and Delete
    operations".  A [delete] that raises leaves the book as it was. *)
Inductive op : Type :=
| AddRecord (record : ContactRecord)
| Delete (n : string).

Definition step (b : AddressBook) (o : op) : AddressBook :=
  match o with
  | AddRecord record => add_record b record
  | Delete n => fst (delete b n)
  end.

Definition exec (ops : list op) : AddressBook :=
  fold_left step ops AddressBook_init.

(** "Every record's name attribute equals the key under which it is
    stored"; and, as in any dict, no key occurs twice. *)
Definition keyed (d : dict) : Prop :=
  (forall k r, In (k, r) d -> value (name r) = k) /\ NoDup (dict_keys d).

(** ** What the code does, for comparison *)

(** The text the setter of [Phone] accepts. *)
Definition ten_digits (raw : string) : bool :=
  (len raw =? 10) && all_chars isdigit_char raw.

(** What the loop of [edit_phone] does to the list when [Phone(new)] is [q]. *)
Definition replace_all (old : string) (q : Phone) (ps : list Phone) : list Phone :=
  map (fun p => if (Phone_str p =? old)%string then q else p) ps.

(** The loop variable of [edit_phone] after the loop over [ps]. *)
Definition last_visited (ps : list Phone) (phone : option Phone) : option Phone :=
  fold_left (fun _ p => Some p) ps phone.

(** What one user contributes to the list the query returns. *)
Definition entries_of (now : date) (user : ContactRecord) : list entry :=
  match next_birthday_of now user with
  | Ok (Some e) => [e]
  | _ => []
  end.

(** The texts an expression matches. *)
Fixpoint lang (e : regex) (t : string) : Prop :=
  match e with
  | Cls f => exists c, t = String c EmptyString /\ f c = true
  | Cat a b => exists t1 t2, t = t1 ++ t2 /\ lang a t1 /\ lang b t2
  | Alt a b => lang a t \/ lang b t
  end.

(** No class of the expression accepts the full stop. *)
Fixpoint dotless (e : regex) : bool :=
  match e with
  | Cls f => negb (f "."%char)
  | Cat a b | Alt a b => dotless a && dotless b
  end.

Definition no_dot (t : string) : bool :=
  all_chars (fun c => negb (Ascii.eqb "." c)) t.

(** The day as the format accepts it: one digit 1-9, possibly after a
    blank, or two digits that make 1..31. *)
Definition day_text (t : string) : Prop :=
  (exists c, t = String c EmptyString /\ in_range "1" "9" c = true) \/
  (exists c, t = String " " (String c EmptyString) /\ in_range "1" "9" c = true) \/
  (exists c1 c2, t = String c1 (String c2 EmptyString) /\
     is_decimal c1 = true /\ is_decimal c2 = true /\ 1 <= int t <= 31).

(** The month: one digit 1-9, or two digits that make 1..12. *)
Definition month_text (t : string) : Prop :=
  (exists c, t = String c EmptyString /\ in_range "1" "9" c = true) \/
  (exists c1 c2, t = String c1 (String c2 EmptyString) /\
     is_decimal c1 = true /\ is_decimal c2 = true /\ 1 <= int t <= 12).

(** The year: exactly four digits. *)
Definition year_text (t : string) : Prop :=
  exists c1 c2 c3 c4,
    t = String c1 (String c2 (String c3 (String c4 EmptyString))) /\
    is_decimal c1 = true /\ is_decimal c2 = true /\
    is_decimal c3 = true /\ is_decimal c4 = true.

(** The texts [Birthday] accepts: day, full stop, month, full stop, year,
    naming a day that exists. *)
Definition date_text (raw : string) : Prop :=
  exists d m y,
    raw = d ++ "." ++ m ++ "." ++ y /\
    day_text d /\ month_text m /\ year_text y /\
    1 <= int y /\ int d <= days_in_month (int y) (int m).

(** ** Sample data *)

(** Ten times the superscript two, U+00B2. *)
Definition superscript_twos : string :=
  let c := ascii_of_nat 178 in
  String c (String c (String c (String c (String c
 (String c (String c (String c (String c (String c EmptyString))))))))).

Definition two_same : ContactRecord :=
  mkRecord (Name_init "Ann") [mkPhone "1111111111"; mkPhone "1111111111"] None.

Definition first_of_two : ContactRecord :=
  mkRecord (Name_init "Ann") [mkPhone "1111111111"; mkPhone "2222222222"] None.

Definition with_birthday (n b : string) : ContactRecord :=
  mkRecord (Name_init n) [] (Some (mkBirthday b)).

(** 2024-06-10, a Monday. *)
Definition monday_10_june : date := mkdate 2024 6 10.

(** A book with two birthdays, two and ten days after 2024-06-10. *)
Definition two_birthdays : AddressBook :=
  exec [AddRecord (with_birthday "Ann" "12.06.1990");
        AddRecord (with_birthday "Bob" "20.06.1990")].

(** * The rest of the program *)

(** ** Record.__str__ and the commands *)

(** A [Birthday] object is always true in [if self.birthday], so only
    [None] gives the empty suffix; [value] is the text that was entered. *)
Definition Record_str (self : ContactRecord) : string :=
  let phones_str := String.concat "; " (map Phone_str (phones self)) in
  let birthday_str :=
    match birthday self with
    | Some b => ", birthday: " ++ Birthday_value b
    | None => ""
    end in
  "Contact name: " ++ value (name self) ++ ", phones: " ++ phones_str ++ birthday_str.

(** The record [find] hands out is the book's own object: what [edit_phone]
    or [add_birthday] writes to it is in the book, also when the call
    raises afterwards. *)
Definition change_contact_body (args : list string) (book : AddressBook)
  : AddressBook * result string :=
  match args with
  | n :: old_phone :: new_phone :: _ =>
      match find_record book n with
      | Some record =>
          let '(record', r) := edit_phone record old_phone new_phone in
          let book' := mkBook (dict_set n record' (data book)) (today book) in
          match r with
          | Ok _ => (book', Ok "Phone number updated successfully.")
          | Raise e => (book', Raise e)
          end
      | None => (book, Raise (KeyError "Contact not found."))
      end
  | _ =>
      (book,
       Ok "Insufficient arguments. Required: name, old phone number, and new phone number.")
  end.

Definition change_contact (args : list string) (book : AddressBook)
  : AddressBook * result string :=
  input_error (change_contact_body args book).

Definition show_phones_body (args : list string) (book : AddressBook)
  : AddressBook * result string :=
  match args with
  | [] => (book, Ok "Insufficient arguments. Required: name.")
  | n :: _ =>
      match find_record book n with
      | Some record =>
          (book, Ok (String.concat ", " (map Phone_str (phones record))))
      | None => (book, Raise (KeyError "Contact not found."))
      end
  end.

Definition show_phones (args : list string) (book : AddressBook)
  : AddressBook * result string :=
  input_error (show_phones_body args book).

Definition show_all (book : AddressBook) : AddressBook * result string :=
  input_error
    (book, Ok (String.concat newline (map Record_str (dict_values (data book))))).

(** The module-level [add_birthday(args, book)]. *)
Definition add_birthday_command_body (args : list string) (book : AddressBook)
  : AddressBook * result string :=
  match args with
  | n :: b :: _ =>
      match find_record book n with
      | Some record =>
          let '(record', r) := add_birthday record b in
          let book' := mkBook (dict_set n record' (data book)) (today book) in
          match r with
          | Ok _ => (book', Ok "Birthday added/updated successfully.")
          | Raise e => (book', Raise e)
          end
      | None => (book, Raise (KeyError "Contact not found."))
      end
  | _ => (book, Ok "Insufficient arguments. Required: name and birthday.")
  end.

Definition add_birthday_command (args : list string) (book : AddressBook)
  : AddressBook * result string :=
  input_error (add_birthday_command_body args book).

(** [show_birthday] reads [args[0]] without a length test; the IndexError of
    an empty list is of a class the decorator does not catch. *)
Inductive escaped : Type :=
| IndexError (msg : string).

Definition show_birthday_body (n : string) (book : AddressBook)
  : AddressBook * result string :=
  match find_record book n with
  | Some record =>
      match birthday record with
      | Some b => (book, Ok (n ++ "'s birthday: " ++ Birthday_value b))
      | None => (book, Raise (KeyError "Contact not found or birthday not set."))
      end
  | None => (book, Raise (KeyError "Contact not found or birthday not set."))
  end.

Definition show_birthday (args : list string) (book : AddressBook)
  : escaped + AddressBook * result string :=
  match args with
  | [] => inl (IndexError "list index out of range")
  | n :: _ => inr (input_error (show_birthday_body n book))
  end.

(** ** parse_input *)

(** The white space of [str.split()] and [str.strip()], below code point 256. *)
Definition isspace_char (c : ascii) : bool :=
  ((9 <=? code c) && (code c <=? 13)) ||
  ((28 <=? code c) && (code c <=? 32)) ||
  (code c =? 133) || (code c =? 160).

(** [str.split()]: the maximal runs of characters that are not white space.
    [cur] is the run being read. *)
Fixpoint split_from (s cur : string) : list string :=
  match s with
  | EmptyString => if (cur =? "")%string then [] else [cur]
  | String c r =>
      if isspace_char c then
        if (cur =? "")%string then split_from r "" else cur :: split_from r ""
      else split_from r (cur ++ String c EmptyString)
  end.

Definition split (s : string) : list string := split_from s "".

Fixpoint lstrip (s : string) : string :=
  match s with
  | String c r => if isspace_char c then lstrip r else s
  | EmptyString => EmptyString
  end.

Fixpoint rstrip (s : string) : string :=
  match s with
  | EmptyString => EmptyString
  | String c r =>
      match rstrip r with
      | EmptyString => if isspace_char c then EmptyString else String c EmptyString
      | r' => String c r'
      end
  end.

Definition strip (s : string) : string := rstrip (lstrip s).

(** [str.lower()] per character: A-Z and the capital letters U+00C0..U+00DE
    (not the multiplication sign U+00D7) move up by 32. *)
Definition lower_char (c : ascii) : ascii :=
  if ((65 <=? code c) && (code c <=? 90)) ||
     ((192 <=? code c) && (code c <=? 222) && negb (code c =? 215))
  then ascii_of_N (N_of_ascii c + 32)
  else c.

Fixpoint lower (s : string) : string :=
  match s with
  | EmptyString => EmptyString
  | String c r => String (lower_char c) (lower r)
  end.

Definition parse_input (user_input : string) : string * list string :=
  let parts := split user_input in
  let cmd := match parts with p :: _ => lower (strip p) | [] => "" end in
  let args := if 1 <? Z.of_nat (List.length parts) then tl parts else [] in
  (cmd, args).

(** ** One turn of the loop of [main]

    What the turn prints, or the exception that ends the program, the book
    as the turn leaves it in memory, and whether the loop goes on; the book
    is written to disk when a turn has printed and the loop goes on. *)

Inductive reply : Type :=
| Printed (text : string)
| Traceback (e : exn)
| TracebackOther (e : escaped).

Definition reply_of (r : result string) : reply :=
  match r with
  | Ok text => Printed text
  | Raise e => Traceback e
  end.

Definition turn (clock : date) (user_input : string) (book : AddressBook)
  : reply * AddressBook * bool :=
  let '(command, args) := parse_input user_input in
  if (command =? "close")%string || (command =? "exit")%string
  then (Printed "Good bye!", book, false)
  else if (command =? "hello")%string
  then (Printed "How can I help you?", book, true)
  else if (command =? "add")%string
  then let '(b, r) := add_contact args book in (reply_of r, b, is_ok r)
  else if (command =? "change")%string
  then let '(b, r) := change_contact args book in (reply_of r, b, is_ok r)
  else if (command =? "phone")%string
  then let '(b, r) := show_phones args book in (reply_of r, b, is_ok r)
  else if (command =? "all")%string
  then let '(b, r) := show_all book in (reply_of r, b, is_ok r)
  else if (command =? "add-birthday")%string
  then let '(b, r) := add_birthday_command args book in (reply_of r, b, is_ok r)
  else if (command =? "show-birthday")%string
  then match show_birthday args book with
       | inl e => (TracebackOther e, book, false)
       | inr (b, r) => (reply_of r, b, is_ok r)
       end
  else if (command =? "birthdays")%string
  then let '(b, r) := birthdays clock args book in (reply_of r, b, is_ok r)
  else (Printed "Invalid command.", book, true).

(** The book in memory after a sequence of turns, as long as the loop goes
    on; each turn reads the clock and a line. *)
Fixpoint turns (inputs : list (date * string)) (book : AddressBook) : AddressBook :=
  match inputs with
  | [] => book
  | (clock, user_input) :: rest =>
      let '(_, book', goes_on) := turn clock user_input book in
      if goes_on then turns rest book' else book'
  end.

(** ** Conditions on records and books *)

(** Every phone is ten digits and the birthday, if any, is a date text. *)
Definition valid_record (r : ContactRecord) : Prop :=
  Forall (fun p => ten_digits (Phone_str p) = true) (phones r) /\
  (forall b, birthday r = Some b -> date_text (Birthday_value b)).

Definition valid_book (book : AddressBook) : Prop :=
  keyed (data book) /\ Forall valid_record (dict_values (data book)).

Definition no_space (s : string) : bool :=
  all_chars (fun c => negb (isspace_char c)) s.

(** A sample book: Ann with two phones and a birthday, Bob with nothing. *)
Definition sample_book : AddressBook :=
  exec [AddRecord (mkRecord (Name_init "Ann")
                     [mkPhone "1111111111"; mkPhone "2222222222"]
                     (Some (mkBirthday "12.06.1990")));
        AddRecord (Record_init "Bob")].

(** A book with one birthday on Saturday 2024-06-15, and a book with a
    birthday two days after 2023-06-10 and one on a 29 February. *)
Definition weekend_book : AddressBook :=
  exec [AddRecord (with_birthday "Ann" "15.06.1990")].


(** The texts [Birthday] accepts, by the library's pattern for the format:
    the day, month and year are the texts its three groups match. *)
Definition accepted_text (raw : string) : Prop :=
  exists d m y,
    raw = d ++ "." ++ m ++ "." ++ y /\
    lang re_d d /\ lang re_m m /\ lang re_Y y /\
    1 <= int y /\ int d <= days_in_month (int y) (int m).

(** * Phones *)

Lemma isdigit_all_chars (s : string) :
  len s = 10 -> isdigit s = all_chars isdigit_char s.
Proof.
  destruct s as [|c r]; [discriminate | reflexivity].
Qed.

Lemma Phone_set_value_ten_digits (v : string) :
  Phone_set_value v =
  if ten_digits v then Ok v else Raise (ValueError "Invalid phone number").
Proof.
  unfold Phone_set_value, ten_digits.
  destruct (len v =? 10) eqn:L; simpl; [|reflexivity].
  apply Z.eqb_eq in L. now rewrite (isdigit_all_chars v L).
Qed.

Lemma Phone_init_ten_digits (v : string) :
  Phone_init v =
  if ten_digits v then Ok (mkPhone v) else Raise (ValueError "Invalid phone number").
Proof.
  unfold Phone_init. rewrite Phone_set_value_ten_digits.
  destruct (ten_digits v); reflexivity.
Qed.

Lemma is_decimal_isdigit_char (c : ascii) :
  is_decimal c = true -> isdigit_char c = true.
Proof. unfold isdigit_char. intros ->. reflexivity. Qed.

(** C5, as the claim states it, fails: ten superscript twos pass
    [str.isdigit] and become a phone, yet none of them is a decimal digit. *)
Lemma Phone_init_superscripts :
  ~ ((exists p, Phone_init superscript_twos = Ok p) <->
     (len superscript_twos = 10 /\
      all_chars is_decimal superscript_twos = true)).
Proof.
  intros [H _].
  destruct H as [_ H]; [now exists (mkPhone superscript_twos)|].
  discriminate H.
Qed.

Lemma all_chars_impl (f g : ascii -> bool) (s : string) :
  (forall c, f c = true -> g c = true) ->
  all_chars f s = true -> all_chars g s = true.
Proof.
  intros Hfg. induction s as [|c r IH]; simpl; [reflexivity|].
  intros H. apply andb_true_iff in H as [Hc Hr].
  now rewrite (Hfg c Hc), (IH Hr).
Qed.

(** C5 (amended): construction succeeds, with the text as the value, exactly
    when the text has length 10 and every character is a digit in the sense
    of [str.isdigit] (the decimal digits and, besides them, digit characters
    such as the superscripts); in every other case it raises
    ValueError('Invalid phone number'). *)
Theorem Phone_init_spec (raw : string) :
  ((exists p, Phone_init raw = Ok p) <->
   len raw = 10 /\ all_chars isdigit_char raw = true) /\
  (Phone_init raw = Ok (mkPhone raw) \/
   Phone_init raw = Raise (ValueError "Invalid phone number")) /\
  (ten_decimal_digits raw = true -> Phone_init raw = Ok (mkPhone raw)).
Proof.
  rewrite Phone_init_ten_digits. unfold ten_decimal_digits, ten_digits.
  destruct (len raw =? 10) eqn:L; simpl.
  - apply Z.eqb_eq in L.
    destruct (all_chars isdigit_char raw) eqn:D.
    + split; [|split]; [split| |]; eauto.
    + split; [|split]; [split| |].
      * intros [p Hp]. discriminate.
      * intros [_ H]. discriminate.
      * now right.
      * intros H. apply (all_chars_impl _ _ _ is_decimal_isdigit_char) in H.
        congruence.
  - apply Z.eqb_neq in L. split; [|split]; [split| |].
    + intros [p Hp]. discriminate.
    + intros [H _]. contradiction.
    + now right.
    + discriminate.
Qed.

(** * Records: removing and editing phones *)

Lemma without_filter (x : string) (ps : list Phone) :
  without x ps (filter (fun p => negb (Phone_str p =? x)%string) ps).
Proof.
  induction ps as [|p ps IH]; simpl; [constructor|].
  destruct (Phone_str p =? x)%string eqn:E; simpl.
  - apply String.eqb_eq in E. now constructor.
  - apply String.eqb_neq in E. now constructor.
Qed.

Lemma without_functional (x : string) (ps a b : list Phone) :
  without x ps a -> without x ps b -> a = b.
Proof.
  intros Ha. revert b.
  induction Ha as [|p ps a E Ha IH|p ps a E Ha IH]; intros b Hb;
    inversion Hb; subst; try contradiction; try reflexivity.
  - now apply IH.
  - f_equal. now apply IH.
Qed.

Lemma without_In (x : string) (ps ps' : list Phone) :
  without x ps ps' ->
  forall p, In p ps' <-> In p ps /\ Phone_str p <> x.
Proof.
  induction 1 as [|q ps ps' E H IH|q ps ps' E H IH]; intros p; simpl.
  - tauto.
  - rewrite IH. split; [tauto|]. intros [[->|Hin] Hne]; [contradiction|tauto].
  - rewrite IH. split.
    + intros [->|[Hin Hne]]; tauto.
    + tauto.
Qed.

Lemma without_none (x : string) (ps : list Phone) :
  (forall p, In p ps -> Phone_str p <> x) -> without x ps ps.
Proof.
  induction ps as [|p ps IH]; intros H; [constructor|].
  apply without_keep; [apply H; now left|].
  apply IH. intros q Hq. apply H. now right.
Qed.

(** C7: [remove_phone] touches only the phones; it drops every phone whose
    text equals [x] and keeps the others in their order; it changes nothing
    (and raises nothing) when no phone matches; and doing it a second time
    changes nothing. *)
Theorem remove_phone_spec (self : ContactRecord) (x : string) :
  name (remove_phone self x) = name self /\
  birthday (remove_phone self x) = birthday self /\
  without x (phones self) (phones (remove_phone self x)) /\
  (forall p, In p (phones (remove_phone self x)) <->
             In p (phones self) /\ Phone_str p <> x) /\
  ((forall p, In p (phones self) -> Phone_str p <> x) ->
   remove_phone self x = self) /\
  remove_phone (remove_phone self x) x = remove_phone self x.
Proof.
  assert (W : without x (phones self) (phones (remove_phone self x)))
    by apply without_filter.
  assert (N : forall r, (forall p, In p (phones r) -> Phone_str p <> x) ->
                        remove_phone r x = r).
  { intros r H. destruct r as [n ps b]. unfold remove_phone, set_phones. simpl.
    f_equal. simpl in H.
    eapply without_functional; [apply without_filter | now apply without_none]. }
  split; [reflexivity|]. split; [reflexivity|]. split; [exact W|].
  split; [exact (without_In _ _ _ W)|]. split; [apply N|].
  apply N. intros p Hp. now apply (without_In _ _ _ W) in Hp.
Qed.

Lemma edit_phone_loop_valid (old new : string) (q : Phone) :
  Phone_init new = Ok q ->
  forall ps phone,
    edit_phone_loop old new ps phone =
    (replace_all old q ps, Ok (last_visited ps phone)).
Proof.
  intros Hq. induction ps as [|p ps IH]; intros phone; simpl; [reflexivity|].
  rewrite Hq, (IH (Some p)).
  destruct (Phone_str p =? old)%string; reflexivity.
Qed.

Lemma last_visited_app (ps : list Phone) (p : Phone) (phone : option Phone) :
  last_visited (ps ++ [p]) phone = Some p.
Proof. unfold last_visited. now rewrite fold_left_app. Qed.

Lemma replace_all_none (old : string) (q : Phone) (ps : list Phone) :
  (forall p, In p ps -> Phone_str p <> old) -> replace_all old q ps = ps.
Proof.
  induction ps as [|p ps IH]; intros H; simpl; [reflexivity|].
  destruct (Phone_str p =? old)%string eqn:E.
  - apply String.eqb_eq in E. exfalso. apply (H p); [now left | exact E].
  - f_equal. apply IH. intros r Hr. apply H. now right.
Qed.

Lemma edit_phone_loop_none (old new : string) :
  forall ps phone,
    (forall p, In p ps -> Phone_str p <> old) ->
    edit_phone_loop old new ps phone = (ps, Ok (last_visited ps phone)).
Proof.
  induction ps as [|p ps IH]; intros phone H; simpl; [reflexivity|].
  destruct (Phone_str p =? old)%string eqn:E.
  - apply String.eqb_eq in E. exfalso. apply (H p); [now left | exact E].
  - rewrite IH; [reflexivity|]. intros r Hr. apply H. now right.
Qed.

(** C1, as the claim states it, fails: with the old number stored twice the
    call succeeds and has replaced both, not the first only. *)
Lemma edit_phone_replaces_both :
  (exists p, In p (phones two_same) /\ Phone_str p = "1111111111") /\
  edit_phone two_same "1111111111" "3333333333" =
    (set_phones two_same [mkPhone "3333333333"; mkPhone "3333333333"], Ok tt) /\
  edit_phone two_same "1111111111" "3333333333" <>
    (set_phones two_same
       (replace_first "1111111111" (mkPhone "3333333333") (phones two_same)),
     Ok tt).
Proof.
  split; [|split].
  - exists (mkPhone "1111111111"). split; [now left | reflexivity].
  - reflexivity.
  - discriminate.
Qed.

(** The test after the loop looks at the last phone only: here the old
    number is found and replaced, and the call still raises. *)
Example edit_phone_first_of_two :
  edit_phone first_of_two "1111111111" "3333333333" =
    (set_phones first_of_two [mkPhone "3333333333"; mkPhone "2222222222"],
     Raise (ValueError not_found_msg)).
Proof. reflexivity. Qed.

Example edit_phone_no_phones :
  exists msg,
    edit_phone (Record_init "Ann") "1111111111" "3333333333" =
      (Record_init "Ann", Raise (UnboundLocalError msg)).
Proof. eexists. reflexivity. Qed.

(** A new number that is no phone stops the loop at the first match, with
    nothing replaced. *)
Lemma edit_phone_invalid_new (self : ContactRecord) (old new : string) (e : exn) :
  Phone_init new = Raise e ->
  (exists p, In p (phones self) /\ Phone_str p = old) ->
  edit_phone self old new = (self, Raise e).
Proof.
  intros Hn [p [Hin Hp]]. destruct self as [n ps b]. unfold edit_phone. simpl in *.
  assert (L : forall v, edit_phone_loop old new ps v = (ps, Raise e)).
  { clear n b. induction ps as [|a ps IH]; intros v; [contradiction|]. simpl.
    destruct (Phone_str a =? old)%string eqn:E.
    - now rewrite Hn.
    - rewrite IH; [reflexivity|].
      destruct Hin as [->|Hin]; [|exact Hin].
      apply String.eqb_neq in E. contradiction. }
  now rewrite L.
Qed.

(** C1 (amended): when the new number is a valid phone [q], a call on a
    record whose last phone equals the old number succeeds and has replaced
    every phone equal to the old number by [q], each in its place, all other
    phones, the name and the birthday being as before; a call on a record
    that has phones, none of them equal to the old number, raises the
    ValueError "old phone number not found" and changes nothing. *)
Theorem edit_phone_spec (self : ContactRecord) (old new : string) (q : Phone) :
  Phone_init new = Ok q ->
  (forall ps p, phones self = (ps ++ [p])%list -> Phone_str p = old ->
     edit_phone self old new =
       (set_phones self (replace_all old q (phones self)), Ok tt)) /\
  (phones self <> [] ->
   (forall p, In p (phones self) -> Phone_str p <> old) ->
     edit_phone self old new = (self, Raise (ValueError not_found_msg))).
Proof.
  intros Hq. split.
  - intros ps p Hps Hp. unfold edit_phone.
    rewrite (edit_phone_loop_valid old new q Hq), Hps, last_visited_app.
    apply String.eqb_eq in Hp. now rewrite Hp.
  - intros Hne Hnone. unfold edit_phone.
    rewrite (edit_phone_loop_none old new _ _ Hnone).
    destruct (phones self) as [|a ps] eqn:Eps using rev_ind; [contradiction|].
    clear IHps. rewrite last_visited_app.
    assert (Ha : Phone_str a <> old) by (apply Hnone, in_or_app; right; now left).
    apply String.eqb_neq in Ha. rewrite Ha. simpl.
    destruct self as [n l b]. simpl in Eps. subst l. reflexivity.
Qed.

Lemma edit_phone_spec_witness :
  Phone_init "3333333333" = Ok (mkPhone "3333333333") /\
  edit_phone two_same "1111111111" "3333333333" =
    (set_phones two_same [mkPhone "3333333333"; mkPhone "3333333333"], Ok tt) /\
  edit_phone first_of_two "4444444444" "3333333333" =
    (first_of_two, Raise (ValueError not_found_msg)).
Proof.
  pose proof (edit_phone_spec two_same "1111111111" "3333333333"
                (mkPhone "3333333333") eq_refl) as [H1 _].
  pose proof (edit_phone_spec first_of_two "4444444444" "3333333333"
                (mkPhone "3333333333") eq_refl) as [_ H2].
  split; [reflexivity|]. split.
  - apply (H1 [mkPhone "1111111111"] (mkPhone "1111111111")); reflexivity.
  - apply H2; [discriminate|].
    intros p [<-|[<-|[]]]; discriminate.
Defined.

(** * The address book as a dict *)

Lemma dict_set_In (k0 : string) (v : ContactRecord) (d : dict) k r :
  In (k, r) (dict_set k0 v d) -> (k = k0 /\ r = v) \/ In (k, r) d.
Proof.
  induction d as [|[k' v'] d IH]; simpl.
  - intros [H|[]]. inversion H. now left.
  - destruct (String.eqb_spec k' k0) as [->|Hne]; simpl.
    + intros [H|H]; [inversion H; now left | right; now right].
    + intros [H|H]; [right; now left|].
      destruct (IH H) as [?|?]; [now left | right; now right].
Qed.

Lemma dict_set_keys (k0 : string) (v : ContactRecord) (d : dict) :
  dict_keys (dict_set k0 v d) =
  if in_dec string_dec k0 (dict_keys d) then dict_keys d
  else (dict_keys d ++ [k0])%list.
Proof.
  induction d as [|[k' v'] d IH]; simpl; [reflexivity|].
  destruct (String.eqb_spec k' k0) as [->|Hne]; simpl.
  - destruct (string_dec k0 k0); [reflexivity | contradiction].
  - rewrite IH. destruct (string_dec k' k0); [contradiction|].
    destruct (in_dec string_dec k0 (dict_keys d)); reflexivity.
Qed.

Lemma dict_set_NoDup (k0 : string) (v : ContactRecord) (d : dict) :
  NoDup (dict_keys d) -> NoDup (dict_keys (dict_set k0 v d)).
Proof.
  intros H. rewrite dict_set_keys.
  destruct (in_dec string_dec k0 (dict_keys d)) as [Hin|Hout]; [exact H|].
  apply NoDup_rev in H. rewrite <- (rev_involutive (dict_keys d ++ [k0])).
  apply NoDup_rev. rewrite rev_app_distr. simpl. constructor; [|exact H].
  now rewrite <- in_rev.
Qed.

Lemma dict_set_own (k0 : string) (v : ContactRecord) (d : dict) r :
  NoDup (dict_keys d) -> In (k0, r) (dict_set k0 v d) -> r = v.
Proof.
  induction d as [|[k' v'] d IH]; simpl.
  - intros _ [H|[]]. now inversion H.
  - intros Hnd. inversion Hnd as [|? ? Hout Hnd']; subst.
    destruct (String.eqb_spec k' k0) as [->|Hne]; simpl.
    + intros [H|H]; [now inversion H|].
      exfalso. apply Hout. unfold dict_keys.
      change k0 with (fst (k0, r)). now apply in_map.
    + intros [H|H]; [inversion H; contradiction | now apply IH].
Qed.

Lemma dict_get_set_same (k0 : string) (v : ContactRecord) (d : dict) :
  dict_get k0 (dict_set k0 v d) = Some v.
Proof.
  induction d as [|[k' v'] d IH]; simpl.
  - now rewrite String.eqb_refl.
  - destruct (String.eqb_spec k' k0) as [->|Hne]; simpl.
    + now rewrite String.eqb_refl.
    + apply String.eqb_neq in Hne. now rewrite Hne.
Qed.

Lemma dict_get_set_other (k0 k : string) (v : ContactRecord) (d : dict) :
  k <> k0 -> dict_get k (dict_set k0 v d) = dict_get k d.
Proof.
  intros Hk. induction d as [|[k' v'] d IH]; simpl.
  - destruct (String.eqb_spec k0 k); [congruence | reflexivity].
  - destruct (String.eqb_spec k' k0) as [->|Hne]; simpl.
    + destruct (String.eqb_spec k0 k); [congruence | reflexivity].
    + now rewrite IH.
Qed.

Lemma dict_del_In (k0 : string) (d d' : dict) :
  dict_del k0 d = Some d' -> forall kv, In kv d' -> In kv d.
Proof.
  revert d'. induction d as [|[k' v'] d IH]; simpl; intros d'; [discriminate|].
  destruct (k' =? k0)%string.
  - intros H kv Hin. inversion H; subst. now right.
  - destruct (dict_del k0 d) as [d0|]; [|discriminate].
    intros H kv Hin. inversion H; subst. destruct Hin as [<-|Hin]; [now left|].
    right. now apply (IH d0).
Qed.

Lemma dict_del_NoDup (k0 : string) (d d' : dict) :
  dict_del k0 d = Some d' -> NoDup (dict_keys d) -> NoDup (dict_keys d').
Proof.
  revert d'. induction d as [|[k' v'] d IH]; simpl; intros d'; [discriminate|].
  intros H Hnd. inversion Hnd as [|? ? Hout Hnd']; subst.
  destruct (k' =? k0)%string.
  - now inversion H; subst.
  - destruct (dict_del k0 d) as [d0|] eqn:E; [|discriminate].
    inversion H; subst. simpl. constructor; [|now apply IH].
    intros Hin. apply Hout. unfold dict_keys in *.
    apply in_map_iff in Hin as [kv [Hk Hin]].
    apply in_map_iff. exists kv. split; [exact Hk|].
    now apply (dict_del_In k0 d d0 E).
Qed.

Lemma keyed_step (b : AddressBook) (o : op) :
  keyed (data b) -> keyed (data (step b o)).
Proof.
  intros [Hk Hnd]. destruct o as [record|n]; simpl.
  - split; [|now apply dict_set_NoDup].
    intros k r Hin. apply dict_set_In in Hin as [[-> ->]|Hin]; [reflexivity|].
    now apply Hk.
  - unfold delete. destruct (dict_del n (data b)) as [d|] eqn:E; simpl.
    + split; [|now apply (dict_del_NoDup n (data b))].
      intros k r Hin. apply Hk. now apply (dict_del_In n (data b) d E).
    + now split.
Qed.

Lemma keyed_exec (ops : list op) : keyed (data (exec ops)).
Proof.
  unfold exec.
  assert (G : forall b, keyed (data b) -> keyed (data (fold_left step ops b))).
  { induction ops as [|o ops IH]; intros b Hb; simpl; [exact Hb|].
    apply IH. now apply keyed_step. }
  apply G. split; [intros k r [] | constructor].
Qed.

(** C8: in a book built from the empty one by any sequence of [add_record]
    and [delete], every record is stored under its own name and no key is
    stored twice; [add_record] puts the record under its own name, leaves
    the other keys as they were, and whatever was stored under that name
    before is gone. *)
Theorem add_record_keyed (ops : list op) (record : ContactRecord) :
  (forall k r, In (k, r) (data (exec ops)) -> value (name r) = k) /\
  NoDup (dict_keys (data (exec ops))) /\
  find_record (add_record (exec ops) record) (value (name record)) = Some record /\
  (forall k, k <> value (name record) ->
     find_record (add_record (exec ops) record) k = find_record (exec ops) k) /\
  (forall r, In (value (name record), r) (data (add_record (exec ops) record)) ->
     r = record).
Proof.
  destruct (keyed_exec ops) as [Hk Hnd].
  split; [exact Hk|]. split; [exact Hnd|]. split; [|split].
  - apply dict_get_set_same.
  - intros k Hne. now apply dict_get_set_other.
  - intros r. now apply dict_set_own.
Qed.

Example overwrite_replaces :
  data (exec [AddRecord first_of_two; AddRecord (Record_init "Bob");
              AddRecord two_same; Delete "Bob"; Delete "Zed"]) =
  [("Ann", two_same)].
Proof. reflexivity. Qed.

(** * The add command *)

Lemma Phone_init_raises (phone : string) :
  is_ok (Phone_init phone) = false ->
  Phone_init phone = Raise (ValueError "Invalid phone number").
Proof.
  rewrite Phone_init_ten_digits. destruct (ten_digits phone); [discriminate|reflexivity].
Qed.

(** C10: for a name the book does not hold and a phone text that is no
    phone, the add command returns the text of the validation error, and
    the book then holds, under that name, a record with no phones and no
    birthday; the other keys are as before. *)
Theorem add_contact_invalid_phone (book : AddressBook) (n phone : string)
    (rest : list string) :
  find_record book n = None ->
  is_ok (Phone_init phone) = false ->
  snd (add_contact (n :: phone :: rest) book) = Ok "Invalid phone number" /\
  find_record (fst (add_contact (n :: phone :: rest) book)) n =
    Some (Record_init n) /\
  phones (Record_init n) = [] /\
  (forall k, k <> n ->
     find_record (fst (add_contact (n :: phone :: rest) book)) k =
     find_record book k).
Proof.
  intros Hfind Hbad. apply Phone_init_raises in Hbad.
  unfold add_contact, add_contact_body, add_phone. rewrite Hfind, Hbad. simpl.
  split; [reflexivity|]. split; [|split; [reflexivity|]].
  - apply dict_get_set_same.
  - intros k Hne. unfold find_record. simpl.
    now rewrite !dict_get_set_other.
Qed.

Lemma add_contact_invalid_phone_witness :
  add_contact ["Bob"; "12345"] (exec [AddRecord two_same]) =
    (mkBook [("Ann", two_same); ("Bob", Record_init "Bob")] None,
     Ok "Invalid phone number").
Proof.
  pose proof (add_contact_invalid_phone (exec [AddRecord two_same])
                "Bob" "12345" [] eq_refl eq_refl) as [H _].
  destruct (add_contact ["Bob"; "12345"] (exec [AddRecord two_same])) as [b r] eqn:E.
  simpl in H. rewrite H.
  vm_compute in E. inversion E. reflexivity.
Defined.

(** * Dates *)

Lemma days_before_year_succ (y : Z) :
  days_before_year (y + 1) =
  days_before_year y + 365 + (if is_leap y then 1 else 0).
Proof.
  unfold days_before_year, is_leap. cbv zeta.
  replace (y + 1 - 1) with y by lia.
  destruct (y mod 4 =? 0) eqn:E4; destruct (y mod 100 =? 0) eqn:E100;
    destruct (y mod 400 =? 0) eqn:E400; simpl;
    rewrite ?Z.eqb_eq, ?Z.eqb_neq in *;
    Z.to_euclidean_division_equations; lia.
Qed.

Lemma days_before_year_bounds (y : Z) :
  1 <= y <= 10000 -> 0 <= days_before_year y <= MAXORDINAL.
Proof.
  unfold days_before_year, MAXORDINAL. cbv zeta. intros H.
  Z.to_euclidean_division_equations; lia.
Qed.

Lemma month_cases (m : Z) :
  1 <= m <= 12 ->
  m = 1 \/ m = 2 \/ m = 3 \/ m = 4 \/ m = 5 \/ m = 6 \/
  m = 7 \/ m = 8 \/ m = 9 \/ m = 10 \/ m = 11 \/ m = 12.
Proof. lia. Qed.

Lemma day_of_year_bounds (y m d : Z) :
  1 <= m <= 12 -> 1 <= d <= days_in_month y m ->
  1 <= days_before_month y m + d <= 365 + (if is_leap y then 1 else 0).
Proof.
  intros Hm Hd. unfold days_before_month, days_in_month in *.
  destruct (is_leap y);
    destruct (month_cases m Hm) as
      [->|[->|[->|[->|[->|[->|[->|[->|[->|[->|[->| ->]]]]]]]]]]];
    match goal with
    | |- context [DAYS_BEFORE_MONTH ?k] =>
        let v := eval vm_compute in (DAYS_BEFORE_MONTH k) in
        change (DAYS_BEFORE_MONTH k) with v
    end;
    cbv beta iota delta [Z.eqb Z.ltb Z.compare Pos.compare Pos.compare_cont
                         Pos.eqb orb andb] in *;
    lia.
Qed.

Lemma toordinal_bounds (t : date) :
  valid_date t -> 1 <= toordinal t <= MAXORDINAL.
Proof.
  intros [Hy [Hm Hd]]. unfold MINYEAR, MAXYEAR in Hy.
  unfold toordinal, ymd2ord.
  pose proof (day_of_year_bounds _ _ _ Hm Hd) as B.
  pose proof (days_before_year_succ (year t)) as S.
  pose proof (days_before_year_bounds (year t) ltac:(lia)) as B1.
  pose proof (days_before_year_bounds (year t + 1) ltac:(lia)) as B2.
  lia.
Qed.

Lemma date_init_Ok (y m d : Z) (t : date) :
  date_init y m d = Ok t -> t = mkdate y m d /\ valid_date t.
Proof.
  unfold date_init, valid_date.
  destruct ((MINYEAR <=? y) && (y <=? MAXYEAR)) eqn:Ey; simpl; [|discriminate].
  destruct ((1 <=? m) && (m <=? 12)) eqn:Em; simpl; [|discriminate].
  destruct ((1 <=? d) && (d <=? days_in_month y m)) eqn:Ed; simpl; [|discriminate].
  intros H. inversion H; subst; simpl.
  apply andb_true_iff in Ey as [? ?], Em as [? ?], Ed as [? ?].
  repeat split; lia.
Qed.

Lemma date_init_valid (t : date) :
  valid_date t -> date_init (year t) (month t) (day t) = Ok t.
Proof.
  intros [[? ?] [[? ?] [? ?]]]. unfold date_init.
  replace ((MINYEAR <=? year t) && (year t <=? MAXYEAR)) with true
    by (symmetry; apply andb_true_iff; lia).
  replace ((1 <=? month t) && (month t <=? 12)) with true
    by (symmetry; apply andb_true_iff; lia).
  replace ((1 <=? day t) && (day t <=? days_in_month (year t) (month t))) with true
    by (symmetry; apply andb_true_iff; lia).
  destruct t; reflexivity.
Qed.

(** What [birthday_this_year] returns: the birthday in the clock's year,
    or in the next one when that date is strictly before the clock's. *)
Lemma birthday_this_year_Ok (now bd bty : date) :
  birthday_this_year now bd = Ok bty ->
  valid_date bty /\
  ((date_ltb (mkdate (year now) (month bd) (day bd)) now = false /\
    bty = mkdate (year now) (month bd) (day bd)) \/
   (date_ltb (mkdate (year now) (month bd) (day bd)) now = true /\
    bty = mkdate (year now + 1) (month bd) (day bd))).
Proof.
  unfold birthday_this_year.
  destruct (date_init (year now) (month bd) (day bd)) as [t|e] eqn:E;
    simpl; [|discriminate].
  apply date_init_Ok in E as [-> Hv].
  destruct (date_ltb _ now) eqn:L.
  - intros H. apply date_init_Ok in H as [-> Hv']. split; [exact Hv'|]. now right.
  - intros H. inversion H; subst. split; [exact Hv|]. now left.
Qed.

(** The Monday after the clock's date, as an ordinal. *)
Lemma next_monday_ordinal (o : Z) :
  let m := o + (7 - (o + 6) mod 7) in
  (m + 6) mod 7 = 0 /\ o < m <= o + 7.
Proof. cbv zeta. Z.to_euclidean_division_equations; lia. Qed.

(** A weekend day that is not before the clock's date leaves room for the
    Monday after the clock's date: the last day of year 9999 is a Friday. *)
Lemma next_monday_in_range (now bty : date) :
  valid_date now -> valid_date bty ->
  0 <= date_sub_days bty now -> 5 <= weekday bty ->
  exists c, date_add_days now (7 - weekday now) = Ok c /\
            c = ord2ymd (toordinal now + (7 - weekday now)).
Proof.
  intros Hn Hb Hd Hw. apply toordinal_bounds in Hn, Hb.
  unfold date_add_days, date_sub_days, weekday, MAXORDINAL in *.
  eexists. split; [|reflexivity].
  replace ((0 <? _) && (_ <=? 3652059)) with true; [reflexivity|].
  symmetry. apply andb_true_iff. rewrite Z.ltb_lt, Z.leb_le.
  Z.to_euclidean_division_equations; lia.
Qed.

Lemma is_leap_cases (a b c d : Z) :
  0 <= b <= 3 -> 0 <= c <= 24 -> 0 <= d <= 3 ->
  is_leap (400 * a + 100 * b + 4 * c + d + 1) =
  (d =? 3) && (negb (c =? 24) || (b =? 3)).
Proof.
  intros Hb Hc Hd. unfold is_leap.
  set (y := 400 * a + 100 * b + 4 * c + d + 1).
  destruct (Z.eqb_spec d 3); destruct (Z.eqb_spec c 24);
    destruct (Z.eqb_spec b 3);
    destruct (Z.eqb_spec (y mod 4) 0); destruct (Z.eqb_spec (y mod 100) 0);
    destruct (Z.eqb_spec (y mod 400) 0); 
    try reflexivity; exfalso; subst y;
    Z.to_euclidean_division_equations; lia.
Qed.

Lemma days_before_year_cycles (a b c d : Z) :
  0 <= b <= 3 -> 0 <= c <= 24 -> 0 <= d <= 3 ->
  days_before_year (400 * a + 100 * b + 4 * c + d + 1) =
  146097 * a + 36524 * b + 1461 * c + 365 * d.
Proof.
  intros Hb Hc Hd. unfold days_before_year. cbv zeta.
  Z.to_euclidean_division_equations; lia.
Qed.

Ltac eval_closed_tests :=
  repeat match goal with
  | |- context [Z.ltb ?x ?y] =>
      let v := eval vm_compute in (Z.ltb x y) in
      match v with
      | true => change (Z.ltb x y) with true
      | false => change (Z.ltb x y) with false
      end
  | |- context [Z.eqb ?x ?y] =>
      let v := eval vm_compute in (Z.eqb x y) in
      match v with
      | true => change (Z.eqb x y) with true
      | false => change (Z.eqb x y) with false
      end
  | |- context [DAYS_BEFORE_MONTH ?k] =>
      let v := eval vm_compute in (DAYS_BEFORE_MONTH k) in
      change (DAYS_BEFORE_MONTH k) with v
  | |- context [DAYS_IN_MONTH ?k] =>
      let v := eval vm_compute in (DAYS_IN_MONTH k) in
      change (DAYS_IN_MONTH k) with v
  end.

Lemma toordinal_ord2ymd (n : Z) : toordinal (ord2ymd n) = n.
Proof.
  unfold ord2ymd. cbv zeta.
  set (a := (n - 1) / DI400Y). set (r1 := (n - 1) mod DI400Y).
  set (b := r1 / DI100Y). set (r2 := r1 mod DI100Y).
  set (c := r2 / DI4Y). set (r3 := r2 mod DI4Y).
  set (d := r3 / 365). set (r := r3 mod 365).
  assert (F : n - 1 = 146097 * a + 36524 * b + 1461 * c + 365 * d + r /\
              0 <= b <= 4 /\ 0 <= c <= 24 /\ 0 <= d <= 4 /\ 0 <= r < 365 /\
              (b = 4 -> c = 0 /\ d = 0 /\ r = 0) /\
              (d = 4 -> r = 0 /\ c <= 23)).
  { subst a r1 b r2 c r3 d r. unfold DI400Y, DI100Y, DI4Y.
    Z.to_euclidean_division_equations; lia. }
  clearbody a b c d r. clear r1 r2 r3.
  destruct F as [Hn [Hb [Hc [Hd [Hr [Hb4 Hd4]]]]]].
  destruct (Z.eqb_spec d 4) as [D4|D4]; [|destruct (Z.eqb_spec b 4) as [B4|B4]];
    cbn [orb].
  - destruct (Hd4 D4) as [-> Hc']. subst d.
    assert (Hb' : 0 <= b <= 3).
    { destruct (Z.eq_dec b 4) as [e|e]; [destruct (Hb4 e); lia | lia]. }
    replace (a * 400 + 1 + b * 100 + c * 4 + 4 - 1)
      with (400 * a + 100 * b + 4 * c + 3 + 1) by lia.
    unfold toordinal, ymd2ord, days_before_month. cbn [year month day].
    rewrite is_leap_cases, days_before_year_cycles by lia.
    replace (c =? 24) with false by (symmetry; apply Z.eqb_neq; lia).
    eval_closed_tests. cbn [andb orb negb]. lia.
  - destruct (Hb4 B4) as [-> [-> ->]]. subst b.
    replace (a * 400 + 1 + 4 * 100 + 0 * 4 + 0 - 1)
      with (400 * a + 100 * 3 + 4 * 24 + 3 + 1) by lia.
    unfold toordinal, ymd2ord, days_before_month. cbn [year month day].
    rewrite is_leap_cases, days_before_year_cycles by lia.
    eval_closed_tests. cbn [andb orb negb]. lia.
  - replace (a * 400 + 1 + b * 100 + c * 4 + d)
      with (400 * a + 100 * b + 4 * c + d + 1) by lia.
    pose proof (is_leap_cases a b c d ltac:(lia) ltac:(lia) ltac:(lia)) as L.
    pose proof (days_before_year_cycles a b c d ltac:(lia) ltac:(lia) ltac:(lia)) as Y.
    set (y := 400 * a + 100 * b + 4 * c + d + 1) in *.
    set (leapyear := (d =? 3) && (negb (c =? 24) || (b =? 3))) in *.
    assert (M : 1 <= Z.shiftr (r + 50) 5 <= 12).
    { rewrite Z.shiftr_div_pow2 by lia. change (2 ^ 5) with 32.
      Z.to_euclidean_division_equations; lia. }
    assert (R : 32 * Z.shiftr (r + 50) 5 <= r + 50 < 32 * Z.shiftr (r + 50) 5 + 32).
    { rewrite Z.shiftr_div_pow2 by lia. change (2 ^ 5) with 32.
      Z.to_euclidean_division_equations; lia. }
    set (m := Z.shiftr (r + 50) 5) in *. clearbody m leapyear y.
    destruct leapyear;
      destruct (month_cases m M) as
        [->|[->|[->|[->|[->|[->|[->|[->|[->|[->|[->| ->]]]]]]]]]]];
      eval_closed_tests; cbn [andb orb negb];
      match goal with
      | |- context [r <? ?p] => destruct (Z.ltb_spec r p)
      end;
      unfold toordinal, ymd2ord, days_before_month; cbn [year month day];
      rewrite L; eval_closed_tests; cbn [andb orb negb]; lia.
Qed.

(** The date a week-day shift lands on: a Monday, after the clock's date
    and at most a week later. *)
Lemma next_monday_date (now c : date) :
  date_add_days now (7 - weekday now) = Ok c ->
  weekday c = 0 /\ toordinal now < toordinal c <= toordinal now + 7.
Proof.
  unfold date_add_days.
  destruct ((0 <? _) && (_ <=? MAXORDINAL)); [|discriminate].
  intros H.
  assert (E : toordinal c = toordinal now + (7 - weekday now))
    by (injection H as <-; apply toordinal_ord2ymd).
  unfold weekday at 1. rewrite E. unfold weekday.
  exact (next_monday_ordinal (toordinal now)).
Qed.

(** * The birthday query *)

Section OneUser.

Variables (now : date) (user : ContactRecord) (b : Birthday) (bd bty : date).
Hypothesis clock_valid : valid_date now.
Hypothesis has_birthday : birthday user = Some b.
Hypothesis parsed : strptime (Birthday_value b) = Ok bd.
Hypothesis settled : birthday_this_year now bd = Ok bty.

Lemma next_birthday_of_unfold :
  next_birthday_of now user =
  if (0 <=? date_sub_days bty now) && (date_sub_days bty now <=? 7)
  then c <- congrats_date now bty ;;
       Ok (Some (mkEntry (value (name user)) (strftime c)))
  else Ok None.
Proof.
  unfold next_birthday_of. rewrite has_birthday, parsed. simpl.
  rewrite settled. reflexivity.
Qed.

Lemma outside_window :
  ~ (0 <= date_sub_days bty now <= 7) -> next_birthday_of now user = Ok None.
Proof.
  intros H. rewrite next_birthday_of_unfold.
  destruct ((0 <=? date_sub_days bty now) && (date_sub_days bty now <=? 7)) eqn:E;
    [|reflexivity].
  apply andb_true_iff in E as [? ?]. lia.
Qed.

Lemma inside_window_weekend :
  0 <= date_sub_days bty now <= 7 -> 5 <= weekday bty ->
  exists c,
    date_add_days now (7 - weekday now) = Ok c /\
    c = ord2ymd (toordinal now + (7 - weekday now)) /\
    next_birthday_of now user =
      Ok (Some (mkEntry (value (name user)) (strftime c))).
Proof.
  intros Hw Hwd. rewrite next_birthday_of_unfold.
  replace ((0 <=? date_sub_days bty now) && (date_sub_days bty now <=? 7))
    with true by (symmetry; apply andb_true_iff; lia).
  destruct (birthday_this_year_Ok _ _ _ settled) as [Hv _].
  destruct (next_monday_in_range now bty clock_valid Hv ltac:(lia) Hwd)
    as [c [Hc Hc']].
  exists c. split; [exact Hc|]. split; [exact Hc'|].
  unfold congrats_date. apply Z.leb_le in Hwd. now rewrite Hwd, Hc.
Qed.

Lemma inside_window_weekday :
  0 <= date_sub_days bty now <= 7 -> weekday bty < 5 ->
  next_birthday_of now user =
    Ok (Some (mkEntry (value (name user)) (strftime bty))).
Proof.
  intros Hw Hwd. rewrite next_birthday_of_unfold.
  replace ((0 <=? date_sub_days bty now) && (date_sub_days bty now <=? 7))
    with true by (symmetry; apply andb_true_iff; lia).
  unfold congrats_date. apply Z.leb_gt in Hwd. now rewrite Hwd.
Qed.

Lemma inside_window :
  0 <= date_sub_days bty now <= 7 ->
  exists e, next_birthday_of now user = Ok (Some e) /\
            entry_name e = value (name user).
Proof.
  intros Hw. destruct (Z_lt_le_dec (weekday bty) 5) as [Hwd|Hwd].
  - eexists. split; [now apply inside_window_weekday | reflexivity].
  - destruct (inside_window_weekend Hw Hwd) as [c [_ [_ Hc]]].
    eexists. split; [exact Hc | reflexivity].
Qed.

End OneUser.

Lemma next_birthday_loop_Ok (now : date) (users : list ContactRecord) :
  forall acc out,
    next_birthday_loop now users acc = Ok out ->
    out = (acc ++ flat_map (entries_of now) users)%list.
Proof.
  induction users as [|u users IH]; intros acc out; simpl.
  - intros H. inversion H. now rewrite app_nil_r.
  - unfold entries_of at 1.
    destruct (next_birthday_of now u) as [[e|]|x]; simpl; [| |discriminate].
    + intros H. apply IH in H. now rewrite <- app_assoc in H.
    + apply IH.
Qed.

Lemma next_birthday_loop_total (now : date) (users : list ContactRecord) :
  Forall (fun u => is_ok (next_birthday_of now u) = true) users ->
  forall acc,
    next_birthday_loop now users acc =
    Ok (acc ++ flat_map (entries_of now) users)%list.
Proof.
  induction 1 as [|u users Hu _ IH]; intros acc; simpl.
  - now rewrite app_nil_r.
  - unfold entries_of at 1.
    destruct (next_birthday_of now u) as [[e|]|x]; simpl; [| |discriminate].
    + now rewrite IH, <- app_assoc.
    + apply IH.
Qed.


Example leap_day_raises :
  next_birthday_of (mkdate 2023 2 25) (with_birthday "Ann" "29.02.2000") =
    Raise (ValueError "day is out of range for month").
Proof. reflexivity. Qed.

(** ** What the query returns, record by record *)




Lemma next_birthday_loop_each (now : date) (users : list ContactRecord) :
  forall acc out,
    next_birthday_loop now users acc = Ok out ->
    Forall (fun u => is_ok (next_birthday_of now u) = true) users.
Proof.
  induction users as [|u users IH]; intros acc out H; [constructor|].
  cbn [next_birthday_loop] in H.
  destruct (next_birthday_of now u) as [r|x] eqn:E; cbn [bind] in H;
    [|discriminate].
  constructor; [now rewrite E | exact (IH _ _ H)].
Qed.

Lemma query_Ok_parts (clock : date) (book : AddressBook) (w : option Z)
    (out : list entry) (before after : list ContactRecord) (user : ContactRecord) :
  snd (find_next_birthday clock book w) = Ok out ->
  dict_values (data book) = (before ++ user :: after)%list ->
  out = (flat_map (entries_of clock) before ++ entries_of clock user ++
         flat_map (entries_of clock) after)%list /\
  exists r, next_birthday_of clock user = Ok r.
Proof.
  unfold find_next_birthday. cbn [snd data]. intros H Hv. rewrite Hv in H.
  split.
  - apply next_birthday_loop_Ok in H. rewrite H. cbn [app].
    now rewrite flat_map_app.
  - apply next_birthday_loop_each in H.
    apply Forall_app in H as [_ H]. inversion H as [|? ? Hu _]; subst.
    destruct (next_birthday_of clock user) as [r|]; [now exists r | discriminate].
Qed.

Lemma query_total (clock : date) (book : AddressBook) (w : option Z) :
  Forall (fun u => is_ok (next_birthday_of clock u) = true)
         (dict_values (data book)) ->
  snd (find_next_birthday clock book w) =
    Ok (flat_map (entries_of clock) (dict_values (data book))).
Proof.
  intros H. unfold find_next_birthday. cbn [snd data].
  now rewrite (next_birthday_loop_total clock _ H).
Qed.






(** C2: when the query returns a list, the entry it holds for a record
    whose birthday, in the clock's year or rolled to the next, is at most
    seven days ahead and on a Saturday or Sunday stands at the record's
    place among the entries and carries the clock's date plus
    [7 - weekday] days, the first Monday after the clock's date; the query
    does return that list when the other records raise nothing; for
    15.06.1990 on Monday 2024-06-10 the query returns the one entry
    2024-06-17. *)
Theorem weekend_moves_to_monday :
  (forall clock book w out before user after b bd bty,
     valid_date clock ->
     snd (find_next_birthday clock book w) = Ok out ->
     dict_values (data book) = (before ++ user :: after)%list ->
     birthday user = Some b ->
     strptime (Birthday_value b) = Ok bd ->
     birthday_this_year clock bd = Ok bty ->
     0 <= date_sub_days bty clock <= 7 ->
     5 <= weekday bty ->
     exists c,
       date_add_days clock (7 - weekday clock) = Ok c /\
       out = (flat_map (entries_of clock) before ++
              mkEntry (value (name user)) (strftime c) ::
              flat_map (entries_of clock) after)%list /\
       weekday c = 0 /\
       toordinal clock < toordinal c <= toordinal clock + 7) /\
  (forall clock book w before user after b bd bty,
     valid_date clock ->
     dict_values (data book) = (before ++ user :: after)%list ->
     Forall (fun u => is_ok (next_birthday_of clock u) = true) before ->
     Forall (fun u => is_ok (next_birthday_of clock u) = true) after ->
     birthday user = Some b ->
     strptime (Birthday_value b) = Ok bd ->
     birthday_this_year clock bd = Ok bty ->
     0 <= date_sub_days bty clock <= 7 ->
     5 <= weekday bty ->
     exists c,
       date_add_days clock (7 - weekday clock) = Ok c /\
       snd (find_next_birthday clock book w) =
         Ok (flat_map (entries_of clock) before ++
             mkEntry (value (name user)) (strftime c) ::
             flat_map (entries_of clock) after)%list) /\
  weekday (mkdate 2024 6 15) = 5 /\
  date_add_days monday_10_june (7 - weekday monday_10_june) =
    Ok (mkdate 2024 6 17) /\
  snd (find_next_birthday monday_10_june weekend_book None) =
    Ok [mkEntry "Ann" "2024.06.17"].
Proof.
  split; [|split; [|repeat split; reflexivity]].
  - intros clock book w out before user after b bd bty Hv Hq Hvs Hb Hp Hs Hw Hwd.
    destruct (inside_window_weekend clock user b bd bty Hv Hb Hp Hs Hw Hwd)
      as [c [Hc [_ He]]].
    exists c. split; [exact Hc|].
    split; [|exact (next_monday_date clock c Hc)].
    destruct (query_Ok_parts clock book w out before after user Hq Hvs) as [-> _].
    unfold entries_of at 2. now rewrite He.
  - intros clock book w before user after b bd bty Hv Hvs Hbe Haf Hb Hp Hs Hw Hwd.
    destruct (inside_window_weekend clock user b bd bty Hv Hb Hp Hs Hw Hwd)
      as [c [Hc [_ He]]].
    exists c. split; [exact Hc|].
    rewrite query_total.
    + rewrite Hvs, flat_map_app. cbn [flat_map]. unfold entries_of at 2.
      now rewrite He.
    + rewrite Hvs. apply Forall_app. split; [exact Hbe|].
      constructor; [now rewrite He | exact Haf].
Qed.

Lemma weekend_moves_to_monday_witness :
  exists c,
    date_add_days monday_10_june (7 - weekday monday_10_june) = Ok c /\
    [mkEntry "Ann" "2024.06.17"] =
      (flat_map (entries_of monday_10_june) [] ++
       mkEntry (value (name (with_birthday "Ann" "15.06.1990"))) (strftime c) ::
       flat_map (entries_of monday_10_june) [])%list /\
    weekday c = 0 /\
    toordinal monday_10_june < toordinal c <= toordinal monday_10_june + 7.
Proof.
  apply (proj1 weekend_moves_to_monday monday_10_june weekend_book None
           [mkEntry "Ann" "2024.06.17"] []
           (with_birthday "Ann" "15.06.1990") []
           (mkBirthday "15.06.1990") (mkdate 1990 6 15) (mkdate 2024 6 15)).
  - repeat split; vm_compute; discriminate.
  - reflexivity.
  - reflexivity.
  - reflexivity.
  - reflexivity.
  - reflexivity.
  - vm_compute. split; discriminate.
  - vm_compute. discriminate.
Defined.




(** A record without a birthday stops the query, whatever else the book
    holds: the loop body reads [user.birthday.value] unguarded. *)
Lemma no_birthday_raises (now : date) (user : ContactRecord) :
  birthday user = None ->
  exists msg, next_birthday_of now user = Raise (AttributeError msg).
Proof. intros H. unfold next_birthday_of. rewrite H. now eexists. Qed.

Lemma no_birthday_query_fails (clock : date) (book : AddressBook) (w : option Z)
    (user : ContactRecord) :
  In user (dict_values (data book)) -> birthday user = None ->
  forall out, snd (find_next_birthday clock book w) <> Ok out.
Proof.
  intros Hin Hb out H. simpl in H.
  assert (G : forall users acc,
             In user users -> next_birthday_loop clock users acc <> Ok out).
  { induction users as [|u users IH]; intros acc Hu; [destruct Hu|].
    destruct Hu as [Hu|Hu]; simpl.
    - subst u. unfold next_birthday_of. rewrite Hb. discriminate.
    - destruct (next_birthday_of clock u); simpl; [now apply IH | discriminate]. }
  exact (G _ _ Hin H).
Qed.

(** C4 fails on the code: with one record that has no birthday the query
    raises AttributeError, for every clock and argument, and so does the
    command [birthdays], whose decorator lets that exception through. *)
Theorem query_raises_without_birthday (clock : date) (w : option Z)
    (args : list string) :
  find_next_birthday clock (exec [AddRecord (Record_init "Bob")]) w =
    (mkBook [("Bob", Record_init "Bob")] (Some clock),
     Raise (AttributeError "'NoneType' object has no attribute 'value'")) /\
  birthdays clock args (exec [AddRecord (Record_init "Bob")]) =
    (mkBook [("Bob", Record_init "Bob")] (Some clock),
     Raise (AttributeError "'NoneType' object has no attribute 'value'")).
Proof. split; reflexivity. Qed.

Example birthdays_two :
  snd (birthdays monday_10_june [] two_birthdays) =
    Ok "Ann's birthday is on 2024.06.12".
Proof. reflexivity. Qed.

(** C9, as the claim states it, fails: the method is not a function of
    what it is given and the stored records, and it is not free of effects.
    With the same book and the same argument it returns the entry of one
    record when the clock reads 2024-06-10 and that of another when it
    reads 2024-06-20, and the call leaves the book changed: it has written
    the clock's date to it. *)
Lemma find_next_birthday_not_pure :
  snd (find_next_birthday (mkdate 2024 6 10) two_birthdays (Some 0)) =
    Ok [mkEntry "Ann" "2024.06.12"] /\
  snd (find_next_birthday (mkdate 2024 6 20) two_birthdays (Some 0)) =
    Ok [mkEntry "Bob" "2024.06.20"] /\
  snd (find_next_birthday (mkdate 2024 6 10) two_birthdays (Some 0)) <>
  snd (find_next_birthday (mkdate 2024 6 20) two_birthdays (Some 0)) /\
  fst (find_next_birthday (mkdate 2024 6 10) two_birthdays (Some 0)) <>
    two_birthdays.
Proof.
  split; [reflexivity|]. split; [reflexivity|]. split; discriminate.
Qed.

Lemma next_birthday_loop_ext (now : date) (us vs : list ContactRecord)
    (acc : list entry) :
  Forall2 (fun u v => value (name u) = value (name v) /\
                      birthday u = birthday v) us vs ->
  next_birthday_loop now us acc = next_birthday_loop now vs acc.
Proof.
  intros H. revert acc.
  induction H as [|u v us vs [Hn Hb] _ IH]; intros acc; [reflexivity|].
  cbn [next_birthday_loop].
  assert (E : next_birthday_of now u = next_birthday_of now v)
    by (unfold next_birthday_of; now rewrite Hn, Hb).
  rewrite E. destruct (next_birthday_of now v) as [r|x]; cbn [bind];
    [apply IH | reflexivity].
Qed.

(** C9 (amended): the date the method works with is the one the system
    clock gives during the call, not one it is given.  What it returns is
    fixed by that date and by the names and birthdays of the stored
    records, in their order: the argument, the keys, the phones and the
    date an earlier call has left on the book play no part.  The call
    leaves the records as they are and writes the clock's date to the
    book, so a second call under the same clock date returns the same. *)
Theorem find_next_birthday_reads_clock (clock : date) (b1 b2 : AddressBook)
    (w1 w2 : option Z) :
  Forall2 (fun u v => value (name u) = value (name v) /\
                      birthday u = birthday v)
          (dict_values (data b1)) (dict_values (data b2)) ->
  snd (find_next_birthday clock b1 w1) = snd (find_next_birthday clock b2 w2) /\
  fst (find_next_birthday clock b1 w1) = mkBook (data b1) (Some clock) /\
  snd (find_next_birthday clock (fst (find_next_birthday clock b1 w1)) w2) =
    snd (find_next_birthday clock b1 w1).
Proof.
  intros H. split; [|split; reflexivity].
  unfold find_next_birthday. cbn [snd data].
  now apply next_birthday_loop_ext.
Qed.

Lemma find_next_birthday_reads_clock_witness :
  snd (find_next_birthday monday_10_june two_birthdays None) =
  snd (find_next_birthday monday_10_june
         (mkBook [("A", mkRecord (Name_init "Ann") [mkPhone "1111111111"]
                          (Some (mkBirthday "12.06.1990")));
                  ("B", with_birthday "Bob" "20.06.1990")]
                 (Some (mkdate 2020 1 1)))
         (Some 3)).
Proof.
  refine (proj1 (find_next_birthday_reads_clock monday_10_june two_birthdays
                   _ None (Some 3) _)).
  repeat constructor.
Defined.

(** * Parsing dates *)

Arguments Ascii.eqb : simpl never.
Arguments in_range : simpl never.
Arguments is_decimal : simpl never.

Lemma append_assoc (a b c : string) : (a ++ b) ++ c = a ++ b ++ c.
Proof. induction a as [|x a IH]; simpl; [reflexivity | now rewrite IH]. Qed.

Lemma append_nil_r (a : string) : a ++ "" = a.
Proof. induction a as [|x a IH]; simpl; [reflexivity | now rewrite IH]. Qed.

Lemma run_spec (e : regex) :
  forall s t r, In (t, r) (run e s) <-> s = t ++ r /\ lang e t.
Proof.
  induction e as [f|a IHa b IHb|a IHa b IHb]; intros s t r; simpl.
  - destruct s as [|c s']; simpl.
    + split; [intros [] | intros [H [c [-> _]]]; discriminate].
    + destruct (f c) eqn:F; simpl.
      * split.
        -- intros [H|[]]. inversion H; subst. split; [reflexivity | now exists c].
        -- intros [H [c' [-> F']]]. simpl in H. inversion H; subst. now left.
      * split; [intros [] | intros [H [c' [-> F']]]].
        simpl in H. inversion H; subst. congruence.
  - rewrite in_flat_map. split.
    + intros [[t1 r1] [H1 H2]]. apply in_map_iff in H2 as [[t2 r2] [E H2]].
      simpl in *. inversion E; subst.
      apply IHa in H1 as [-> L1]. apply IHb in H2 as [-> L2].
      split; [now rewrite append_assoc | now exists t1, t2].
    + intros [-> [t1 [t2 [-> [L1 L2]]]]].
      exists (t1, t2 ++ r). split.
      * apply IHa. split; [now rewrite append_assoc | exact L1].
      * apply in_map_iff. exists (t2, r). split; [reflexivity|].
        apply IHb. now split.
  - rewrite in_app_iff, IHa, IHb. tauto.
Qed.

Lemma format_matches_spec (s d m y rest : string) :
  In (d, m, y, rest) (format_matches s) <->
  s = d ++ "." ++ m ++ "." ++ y ++ rest /\
  lang re_d d /\ lang re_m m /\ lang re_Y y.
Proof.
  unfold format_matches. split.
  - intros H.
    apply in_flat_map in H as [[d' r1] [Hd H]].
    apply in_flat_map in H as [[p1 r2] [Hp1 H]].
    apply in_flat_map in H as [[m' r3] [Hm H]].
    apply in_flat_map in H as [[p2 r4] [Hp2 H]].
    apply in_map_iff in H as [[y' r5] [E Hy]].
    cbn [fst snd] in *. inversion E; subst.
    apply run_spec in Hd as [-> Ld], Hp1 as [-> [c1 [-> C1]]],
      Hm as [-> Lm], Hp2 as [-> [c2 [-> C2]]], Hy as [-> Ly].
    apply Ascii.eqb_eq in C1, C2. subst c1 c2. simpl. now repeat split.
  - intros [-> [Ld [Lm Ly]]].
    apply in_flat_map. exists (d, "." ++ m ++ "." ++ y ++ rest).
    split; [apply run_spec; now split|].
    apply in_flat_map. exists (".", m ++ "." ++ y ++ rest).
    split; [apply run_spec; split; [reflexivity | now exists "."%char]|].
    apply in_flat_map. exists (m, "." ++ y ++ rest).
    split; [apply run_spec; now split|].
    apply in_flat_map. exists (".", y ++ rest).
    split; [apply run_spec; split; [reflexivity | now exists "."%char]|].
    apply in_map_iff. exists (y, rest).
    split; [reflexivity | apply run_spec; now split].
Qed.

Lemma lang_no_dot (e : regex) :
  dotless e = true -> forall t, lang e t -> no_dot t = true.
Proof.
  unfold no_dot.
  induction e as [f|a IHa b IHb|a IHa b IHb]; simpl; intros D t.
  - intros [c [-> F]]. simpl. rewrite andb_true_r.
    destruct (Ascii.eqb_spec "." c) as [<-|]; [|reflexivity].
    rewrite F in D. discriminate.
  - apply andb_true_iff in D as [Da Db].
    intros [t1 [t2 [-> [L1 L2]]]].
    specialize (IHa Da t1 L1). specialize (IHb Db t2 L2).
    clear L1 L2. induction t1 as [|c t1 IH]; simpl in *; [exact IHb|].
    apply andb_true_iff in IHa as [-> H]. simpl. now apply IH.
  - apply andb_true_iff in D as [Da Db]. intros [L|L]; auto.
Qed.

Lemma split_at_dot (t t' r r' : string) :
  no_dot t = true -> no_dot t' = true ->
  t ++ String "." r = t' ++ String "." r' -> t = t' /\ r = r'.
Proof.
  unfold no_dot. revert t'.
  induction t as [|c t IH]; intros [|c' t'] N N' E; simpl in *.
  - inversion E. now split.
  - inversion E; subst. now rewrite Ascii.eqb_refl in N'.
  - inversion E; subst. now rewrite Ascii.eqb_refl in N.
  - inversion E; subst.
    apply andb_true_iff in N as [_ N], N' as [_ N'].
    destruct (IH t' N N' H1) as [-> ->]. now split.
Qed.

Lemma lang_re_Y (y : string) : lang re_Y y <-> year_text y.
Proof.
  unfold year_text, re_Y, re_digit. simpl. split.
  - intros (t1 & t2 & -> & (c1 & -> & C1) & t3 & t4 & -> & (c2 & -> & C2) &
            t5 & t6 & -> & (c3 & -> & C3) & c4 & -> & C4).
    now exists c1, c2, c3, c4.
  - intros [c1 [c2 [c3 [c4 [-> [C1 [C2 [C3 C4]]]]]]]].
    exists (String c1 ""), (String c2 (String c3 (String c4 ""))).
    split; [reflexivity|]. split; [now exists c1|].
    exists (String c2 ""), (String c3 (String c4 "")).
    split; [reflexivity|]. split; [now exists c2|].
    exists (String c3 ""), (String c4 "").
    split; [reflexivity|]. split; [now exists c3 | now exists c4].
Qed.

Lemma split_year (y y' r r' : string) :
  year_text y -> year_text y' -> y ++ r = y' ++ r' -> y = y' /\ r = r'.
Proof.
  intros [a1 [a2 [a3 [a4 [-> _]]]]] [b1 [b2 [b3 [b4 [-> _]]]]] E.
  simpl in E. inversion E; subst. now split.
Qed.

Lemma format_matches_unique (s : string) x x' :
  In x (format_matches s) -> In x' (format_matches s) -> x = x'.
Proof.
  destruct x as [[[d m] y] r], x' as [[[d' m'] y'] r'].
  intros H H'.
  apply format_matches_spec in H as [E [Ld [Lm Ly]]].
  apply format_matches_spec in H' as [E' [Ld' [Lm' Ly']]].
  rewrite E in E'. clear E.
  apply split_at_dot in E' as [-> E'];
    try (eapply lang_no_dot; [|eassumption]; reflexivity).
  apply split_at_dot in E' as [-> E'];
    try (eapply lang_no_dot; [|eassumption]; reflexivity).
  apply split_year in E' as [-> ->]; try (now apply lang_re_Y).
  reflexivity.
Qed.

(** Character classes as bounds on code points. *)

Lemma code_inj (a b : ascii) : code a = code b -> a = b.
Proof.
  unfold code. intros H. apply N2Z.inj in H.
  rewrite <- (ascii_N_embedding a), <- (ascii_N_embedding b). now rewrite H.
Qed.

Lemma in_range_spec (lo hi c : ascii) :
  in_range lo hi c = true <-> code lo <= code c <= code hi.
Proof. unfold in_range. rewrite andb_true_iff, !Z.leb_le. tauto. Qed.

Lemma is_decimal_spec (c : ascii) : is_decimal c = true <-> 48 <= code c <= 57.
Proof. unfold is_decimal. now rewrite in_range_spec. Qed.

Lemma eqb_code (a c : ascii) : Ascii.eqb a c = true <-> code c = code a.
Proof.
  rewrite Ascii.eqb_eq. split; [now intros -> | intros H; symmetry; now apply code_inj].
Qed.

Ltac eval_codes :=
  repeat match goal with
  | H : context [code (Ascii ?a ?b ?c ?d ?e ?f ?g ?h)] |- _ =>
      let v := eval vm_compute in (code (Ascii a b c d e f g h)) in
      change (code (Ascii a b c d e f g h)) with v in H
  | |- context [code (Ascii ?a ?b ?c ?d ?e ?f ?g ?h)] =>
      let v := eval vm_compute in (code (Ascii a b c d e f g h)) in
      change (code (Ascii a b c d e f g h)) with v
  end.

Ltac codes :=
  repeat match goal with
  | H : in_range _ _ _ = true |- _ => apply in_range_spec in H
  | H : is_decimal _ = true |- _ => apply is_decimal_spec in H
  | H : Ascii.eqb _ _ = true |- _ => apply eqb_code in H
  | |- in_range _ _ _ = true => apply in_range_spec
  | |- is_decimal _ = true => apply is_decimal_spec
  | |- Ascii.eqb _ _ = true => apply eqb_code
  end;
  eval_codes.

Lemma int_acc_digit (acc : Z) (c : ascii) (r : string) :
  is_decimal c = true ->
  int_acc acc (String c r) = int_acc (10 * acc + (code c - 48)) r.
Proof. intros H. simpl. now rewrite H. Qed.

Lemma int_one (c : ascii) :
  is_decimal c = true -> int (String c "") = code c - 48.
Proof. intros H. unfold int. rewrite int_acc_digit by exact H. cbn [int_acc]. lia. Qed.

Lemma int_two (c1 c2 : ascii) :
  is_decimal c1 = true -> is_decimal c2 = true ->
  int (String c1 (String c2 "")) = 10 * (code c1 - 48) + (code c2 - 48).
Proof.
  intros H1 H2. unfold int. rewrite !int_acc_digit by assumption. cbn [int_acc]. lia.
Qed.

Lemma int_blank (c : ascii) :
  is_decimal c = true -> int (String " " (String c "")) = code c - 48.
Proof.
  intros H. unfold int. change (int_acc 0 (String " " (String c "")))
    with (int_acc 0 (String c "")).
  rewrite int_acc_digit by exact H. cbn [int_acc]. lia.
Qed.

Lemma int_four (c1 c2 c3 c4 : ascii) :
  is_decimal c1 = true -> is_decimal c2 = true ->
  is_decimal c3 = true -> is_decimal c4 = true ->
  int (String c1 (String c2 (String c3 (String c4 "")))) =
  1000 * (code c1 - 48) + 100 * (code c2 - 48) + 10 * (code c3 - 48) + (code c4 - 48).
Proof.
  intros H1 H2 H3 H4. unfold int. rewrite !int_acc_digit by assumption. cbn [int_acc]. lia.
Qed.

Lemma lang_re_d (t : string) : lang re_d t <-> day_text t.
Proof.
  unfold day_text, re_d, re_digit, chr, rng. simpl. split.
  - intros [H|[H|[H|[H|H]]]].
    + destruct H as (t1 & t2 & -> & (c1 & -> & C1) & c2 & -> & C2).
      right; right. exists c1, c2. simpl. codes.
      assert (D1 : is_decimal c1 = true) by (codes; lia).
      assert (D2 : is_decimal c2 = true) by (codes; lia).
      rewrite (int_two c1 c2 D1 D2). repeat split; try assumption; try lia.
    + destruct H as (t1 & t2 & -> & (c1 & -> & C1) & c2 & -> & C2).
      right; right. exists c1, c2. simpl.
      assert (D1 : is_decimal c1 = true) by (codes; lia).
      rewrite (int_two c1 c2 D1 C2). repeat split; try assumption; codes; lia.
    + destruct H as (t1 & t2 & -> & (c1 & -> & C1) & c2 & -> & C2).
      right; right. exists c1, c2. simpl.
      assert (D1 : is_decimal c1 = true) by (codes; lia).
      assert (D2 : is_decimal c2 = true) by (codes; lia).
      rewrite (int_two c1 c2 D1 D2). repeat split; try assumption; codes; lia.
    + destruct H as (c & -> & C). left. now exists c.
    + destruct H as (t1 & t2 & -> & (c1 & -> & C1) & c2 & -> & C2).
      right; left. apply Ascii.eqb_eq in C1. subst c1. now exists c2.
  - intros [(c & -> & C)|[(c & -> & C)|(c1 & c2 & -> & D1 & D2 & V)]].
    + right; right; right; left. now exists c.
    + right; right; right; right.
      exists " ", (String c ""). split; [reflexivity|].
      split; [now exists " "%char | now exists c].
    + rewrite (int_two c1 c2 D1 D2) in V.
      assert (T : code c1 = 51 \/ 49 <= code c1 <= 50 \/ code c1 = 48)
        by (codes; lia).
      destruct T as [T|[T|T]]; [left | right; left | right; right; left];
        exists (String c1 ""), (String c2 ""); (split; [reflexivity|]);
        (split; [exists c1; split; [reflexivity | codes; lia]
                | exists c2; split; [reflexivity | codes; lia]]).
Qed.

Lemma lang_re_m (t : string) : lang re_m t <-> month_text t.
Proof.
  unfold month_text, re_m, chr, rng. simpl. split.
  - intros [H|[H|H]].
    + destruct H as (t1 & t2 & -> & (c1 & -> & C1) & c2 & -> & C2).
      right. exists c1, c2. simpl.
      assert (D1 : is_decimal c1 = true) by (codes; lia).
      assert (D2 : is_decimal c2 = true) by (codes; lia).
      rewrite (int_two c1 c2 D1 D2). repeat split; try assumption; codes; lia.
    + destruct H as (t1 & t2 & -> & (c1 & -> & C1) & c2 & -> & C2).
      right. exists c1, c2. simpl.
      assert (D1 : is_decimal c1 = true) by (codes; lia).
      assert (D2 : is_decimal c2 = true) by (codes; lia).
      rewrite (int_two c1 c2 D1 D2). repeat split; try assumption; codes; lia.
    + destruct H as (c & -> & C). left. now exists c.
  - intros [(c & -> & C)|(c1 & c2 & -> & D1 & D2 & V)].
    + right; right. now exists c.
    + rewrite (int_two c1 c2 D1 D2) in V.
      assert (T : code c1 = 49 \/ code c1 = 48) by (codes; lia).
      destruct T as [T|T]; [left | right; left];
        exists (String c1 ""), (String c2 ""); (split; [reflexivity|]);
        (split; [exists c1; split; [reflexivity | codes; lia]
                | exists c2; split; [reflexivity | codes; lia]]).
Qed.

Lemma day_text_range (d : string) : day_text d -> 1 <= int d <= 31.
Proof.
  intros [(c & -> & C)|[(c & -> & C)|(c1 & c2 & -> & _ & _ & V)]];
    [| |exact V];
    assert (D : is_decimal c = true) by (codes; lia);
    [rewrite (int_one c D) | rewrite (int_blank c D)]; codes; lia.
Qed.

Lemma month_text_range (m : string) : month_text m -> 1 <= int m <= 12.
Proof.
  intros [(c & -> & C)|(c1 & c2 & -> & _ & _ & V)]; [|exact V].
  assert (D : is_decimal c = true) by (codes; lia).
  rewrite (int_one c D). codes. lia.
Qed.

Lemma year_text_range (y : string) : year_text y -> 0 <= int y <= 9999.
Proof.
  intros (c1 & c2 & c3 & c4 & -> & D1 & D2 & D3 & D4).
  rewrite (int_four _ _ _ _ D1 D2 D3 D4). codes. lia.
Qed.

Lemma days_in_month_le (y m : Z) : 28 <= days_in_month y m <= 31.
Proof.
  unfold days_in_month.
  destruct (m =? 2); [destruct (is_leap y); lia|].
  destruct ((m =? 4) || (m =? 6) || (m =? 9) || (m =? 11)); lia.
Qed.

Lemma date_init_texts (d m y : string) :
  day_text d -> month_text m -> year_text y ->
  (1 <= int y /\ int d <= days_in_month (int y) (int m) ->
   date_init (int y) (int m) (int d) = Ok (mkdate (int y) (int m) (int d))) /\
  (forall t, date_init (int y) (int m) (int d) = Ok t ->
   1 <= int y /\ int d <= days_in_month (int y) (int m)) /\
  (forall e, date_init (int y) (int m) (int d) = Raise e ->
   exists msg, e = ValueError msg).
Proof.
  intros Hd Hm Hy.
  apply day_text_range in Hd. apply month_text_range in Hm.
  apply year_text_range in Hy.
  split; [|split].
  - intros [H1 H2].
    apply (date_init_valid (mkdate (int y) (int m) (int d))).
    unfold valid_date, MINYEAR, MAXYEAR. simpl. lia.
  - intros t H. apply date_init_Ok in H as [-> [V1 [V2 V3]]].
    unfold MINYEAR in V1. simpl in *. lia.
  - intros e. unfold date_init.
    repeat match goal with
    | |- context [if ?b then _ else _] => destruct b
    end; intros H; inversion H; eauto.
Qed.

(** What [strptime] accepts, and that it raises nothing but ValueError. *)
Lemma strptime_spec (raw : string) :
  (forall t, strptime raw = Ok t ->
     exists d m y,
       raw = d ++ "." ++ m ++ "." ++ y /\
       day_text d /\ month_text m /\ year_text y /\
       date_init (int y) (int m) (int d) = Ok t) /\
  (forall d m y,
     raw = d ++ "." ++ m ++ "." ++ y ->
     day_text d -> month_text m -> year_text y ->
     strptime raw = date_init (int y) (int m) (int d)) /\
  (forall e, strptime raw = Raise e -> exists msg, e = ValueError msg).
Proof.
  unfold strptime. split; [|split].
  - intros t.
    destruct (format_matches raw) as [|[[[d m] y] rest] l] eqn:E; [discriminate|].
    assert (I : In (d, m, y, rest) (format_matches raw)) by (rewrite E; now left).
    apply format_matches_spec in I as [-> [Ld [Lm Ly]]].
    destruct (String.eqb_spec rest "") as [->|]; simpl; [|discriminate].
    intros H. exists d, m, y. rewrite append_nil_r.
    rewrite <- lang_re_d, <- lang_re_m, <- lang_re_Y. now repeat split.
  - intros d m y -> Hd Hm Hy.
    assert (I : In (d, m, y, "") (format_matches (d ++ "." ++ m ++ "." ++ y))).
    { apply format_matches_spec. rewrite append_nil_r.
      rewrite lang_re_d, lang_re_m, lang_re_Y. now repeat split. }
    destruct (format_matches (d ++ "." ++ m ++ "." ++ y)) as [|x l] eqn:E;
      [destruct I|].
    assert (X : x = (d, m, y, "")).
    { apply (format_matches_unique (d ++ "." ++ m ++ "." ++ y));
        [rewrite E; now left | rewrite E; exact I]. }
    subst x. reflexivity.
  - intros e.
    destruct (format_matches raw) as [|[[[d m] y] rest] l] eqn:E;
      [intros H; inversion H; eauto|].
    assert (I : In (d, m, y, rest) (format_matches raw)) by (rewrite E; now left).
    apply format_matches_spec in I as [-> [Ld [Lm Ly]]].
    destruct (String.eqb_spec rest "") as [->|]; simpl;
      [|intros H; inversion H; eauto].
    apply lang_re_d in Ld. apply lang_re_m in Lm. apply lang_re_Y in Ly.
    apply (date_init_texts d m y Ld Lm Ly).
Qed.

Lemma strptime_date_text (raw : string) :
  (exists t, strptime raw = Ok t) <-> date_text raw.
Proof.
  destruct (strptime_spec raw) as [S1 [S2 _]]. unfold date_text. split.
  - intros [t H]. destruct (S1 t H) as (d & m & y & -> & Hd & Hm & Hy & I).
    exists d, m, y. repeat split; try assumption;
      apply (date_init_texts d m y Hd Hm Hy) in I; tauto.
  - intros (d & m & y & E & Hd & Hm & Hy & V).
    rewrite (S2 d m y E Hd Hm Hy).
    eexists. now apply (date_init_texts d m y Hd Hm Hy).
Qed.

Lemma Birthday_init_cases (raw : string) :
  ((exists t, strptime raw = Ok t) /\ Birthday_init raw = Ok (mkBirthday raw)) \/
  ((forall t, strptime raw <> Ok t) /\ Birthday_init raw = Raise format_error).
Proof.
  unfold Birthday_init.
  destruct (strptime raw) as [t|e] eqn:E.
  - left. split; [now exists t | reflexivity].
  - right. destruct (proj2 (proj2 (strptime_spec raw)) e E) as [msg ->].
    split; [discriminate | reflexivity].
Qed.

Lemma DD_MM_YYYY_date_text (raw : string) :
  DD_MM_YYYY raw = true -> date_text raw.
Proof.
  unfold DD_MM_YYYY.
  destruct raw as [|d1 [|d2 [|p1 [|m1 [|m2 [|p2 [|y1 [|y2 [|y3 [|y4 [|? ?]]]]]]]]]]];
    try discriminate.
  intros H.
  apply andb_true_iff in H as [H HI]. apply andb_true_iff in H as [H P2].
  apply andb_true_iff in H as [H P1]. cbn [forallb] in H.
  apply andb_true_iff in H as [D1 H]. apply andb_true_iff in H as [D2 H].
  apply andb_true_iff in H as [M1 H]. apply andb_true_iff in H as [M2 H].
  apply andb_true_iff in H as [Y1 H]. apply andb_true_iff in H as [Y2 H].
  apply andb_true_iff in H as [Y3 H]. apply andb_true_iff in H as [Y4 _].
  apply Ascii.eqb_eq in P1, P2. subst p1 p2.
  destruct (date_init _ _ _) as [t|] eqn:I; [|discriminate].
  apply date_init_Ok in I as [-> [V1 [V2 V3]]].
  unfold MINYEAR, MAXYEAR, digit_value in *. cbn [year month day] in V1, V2, V3.
  pose proof (days_in_month_le
    (1000 * (code y1 - 48) + 100 * (code y2 - 48) + 10 * (code y3 - 48) + (code y4 - 48))
    (10 * (code m1 - 48) + (code m2 - 48))) as B.
  exists (String d1 (String d2 "")), (String m1 (String m2 "")),
         (String y1 (String y2 (String y3 (String y4 "")))).
  rewrite int_two, int_two, int_four by assumption.
  split; [reflexivity|]. split; [|split; [|split]].
  - right; right. exists d1, d2. rewrite int_two by assumption.
    repeat split; try assumption; lia.
  - right. exists m1, m2. rewrite int_two by assumption.
    repeat split; try assumption; lia.
  - exists y1, y2, y3, y4. now repeat split.
  - lia.
Qed.

(** A birthday that was constructed parses again when the query reads it. *)
Lemma Birthday_init_parses (raw : string) (b : Birthday) :
  Birthday_init raw = Ok b ->
  Birthday_value b = raw /\ exists bd, strptime (Birthday_value b) = Ok bd.
Proof.
  destruct (Birthday_init_cases raw) as [[[t Ht] Hb]|[_ Hb]]; rewrite Hb;
    intros H; inversion H; subst; simpl.
  split; [reflexivity | now exists t].
Qed.

(** C6, as the claim states it, fails: a day and a month of one digit are
    accepted, though the text is no DD.MM.YYYY. *)
Lemma Birthday_init_one_digit :
  Birthday_init "1.2.1990" = Ok (mkBirthday "1.2.1990") /\
  DD_MM_YYYY "1.2.1990" = false /\
  ~ ((exists b, Birthday_init "1.2.1990" = Ok b) <-> DD_MM_YYYY "1.2.1990" = true).
Proof.
  split; [reflexivity|]. split; [reflexivity|].
  intros [H _]. discriminate H. now exists (mkBirthday "1.2.1990").
Qed.

Lemma accepted_text_date_text (raw : string) :
  accepted_text raw <-> date_text raw.
Proof.
  unfold accepted_text, date_text. split.
  - intros (d & m & y & E & Hd & Hm & Hy & V). exists d, m, y.
    rewrite <- lang_re_d, <- lang_re_m, <- lang_re_Y. tauto.
  - intros (d & m & y & E & Hd & Hm & Hy & V). exists d, m, y.
    rewrite lang_re_d, lang_re_m, lang_re_Y. tauto.
Qed.

(** C6 (amended): construction succeeds, keeping the text, exactly when the
    text is a day, a full stop, a month, a full stop and a year and nothing
    more, as the library's pattern for the format has them: the day is 3
    followed by 0 or 1, or 1 or 2 followed by a decimal digit, or 0
    followed by one of 1-9, or one of 1-9 alone or after a blank; the month
    is 1 followed by 0, 1 or 2, or 0 followed by one of 1-9, or one of 1-9
    alone; the year is four decimal digits; the year read from them is not
    0 and the day exists in that month and year.  A decimal digit here is
    a character the library's \d matches and [int] reads.  Every
    DD.MM.YYYY text of a valid date, written with the digits 0-9, is of
    that kind; every other text raises the ValueError about the date
    format. *)
Theorem Birthday_init_spec (raw : string) :
  ((exists b, Birthday_init raw = Ok b) <-> accepted_text raw) /\
  (Birthday_init raw = Ok (mkBirthday raw) \/
   Birthday_init raw = Raise format_error) /\
  (DD_MM_YYYY raw = true -> Birthday_init raw = Ok (mkBirthday raw)).
Proof.
  pose proof (strptime_date_text raw) as S.
  rewrite accepted_text_date_text.
  destruct (Birthday_init_cases raw) as [[Hs Hb]|[Hs Hb]].
  - split; [|split].
    + split; [intros _; now apply S | intros _; eauto].
    + now left.
    + intros _. exact Hb.
  - split; [|split].
    + split.
      * intros [b H]. rewrite Hb in H. discriminate.
      * intros H. apply S in H as [t H]. now destruct (Hs t).
    + now right.
    + intros H. apply DD_MM_YYYY_date_text, S in H as [t H]. now destruct (Hs t).
Qed.

Example Birthday_init_examples :
  Birthday_init "15.06.1990" = Ok (mkBirthday "15.06.1990") /\
  Birthday_init " 1.2.1990" = Ok (mkBirthday " 1.2.1990") /\
  Birthday_init "29.02.2001" = Raise format_error /\
  Birthday_init "32.01.1990" = Raise format_error /\
  Birthday_init "01.13.1990" = Raise format_error /\
  Birthday_init "01-01-1990" = Raise format_error /\
  Birthday_init "01.01.1990.1" = Raise format_error /\
  Birthday_init "01.01.0000" = Raise format_error /\
  Birthday_init "aa.bb.cccc" = Raise format_error.
Proof. repeat split; reflexivity. Qed.

(** * Further properties of the record methods *)

Lemma find_phone_cons (n : Name) (b : option Birthday) (p : Phone)
    (ps : list Phone) (x : string) :
  find_phone (mkRecord n (p :: ps) b) x =
  if (Phone_str p =? x)%string then Some p else find_phone (mkRecord n ps b) x.
Proof. reflexivity. Qed.

Lemma find_phone_None (self : ContactRecord) (x : string) :
  find_phone self x = None <->
  forall p, In p (phones self) -> Phone_str p <> x.
Proof.
  destruct self as [n ps b]. cbn [phones].
  induction ps as [|a ps IH]; rewrite ?find_phone_cons.
  - split; [intros _ p [] | reflexivity].
  - destruct (String.eqb_spec (Phone_str a) x) as [E|E].
    + split; [discriminate|]. intros H. exfalso. apply (H a); [now left | exact E].
    + rewrite IH. split.
      * intros H p [<-|Hp]; [exact E | now apply H].
      * intros H p Hp. apply H. now right.
Qed.

Lemma find_phone_Some (self : ContactRecord) (x : string) (p : Phone) :
  find_phone self x = Some p ->
  exists before after,
    phones self = (before ++ p :: after)%list /\ Phone_str p = x /\
    forall q, In q before -> Phone_str q <> x.
Proof.
  destruct self as [n ps b]. cbn [phones].
  induction ps as [|a ps IH]; rewrite ?find_phone_cons; [discriminate|].
  destruct (String.eqb_spec (Phone_str a) x) as [E|E].
  - intros H. inversion H; subst p. exists [], ps.
    split; [reflexivity|]. split; [exact E | intros q []].
  - intros H. destruct (IH H) as (before & after & -> & Hx & Hb).
    exists (a :: before), after. split; [reflexivity|]. split; [exact Hx|].
    intros q [<-|Hq]; [exact E | now apply Hb].
Qed.

(** X1: [find_phone] returns the first phone, in list order, whose text is
    the one asked for, and [None] exactly when no phone has that text. *)
Theorem find_phone_first (self : ContactRecord) (x : string) :
  (find_phone self x = None <->
   forall p, In p (phones self) -> Phone_str p <> x) /\
  (forall p, find_phone self x = Some p ->
     exists before after,
       phones self = (before ++ p :: after)%list /\ Phone_str p = x /\
       forall q, In q before -> Phone_str q <> x).
Proof.
  split; [apply find_phone_None | intros p; apply find_phone_Some].
Qed.

Lemma find_phone_app (n : Name) (b : option Birthday) (ps qs : list Phone)
    (x : string) :
  find_phone (mkRecord n (ps ++ qs) b) x =
  match find_phone (mkRecord n ps b) x with
  | Some p => Some p
  | None => find_phone (mkRecord n qs b) x
  end.
Proof.
  induction ps as [|a ps IH]; [reflexivity|].
  change ((a :: ps) ++ qs)%list with (a :: (ps ++ qs))%list.
  rewrite !find_phone_cons, IH. now destruct (Phone_str a =? x)%string.
Qed.

Lemma add_phone_valid (self : ContactRecord) (x : string) :
  ten_digits x = true ->
  add_phone self x = (set_phones self (phones self ++ [mkPhone x]), Ok tt).
Proof. intros Hx. unfold add_phone. now rewrite Phone_init_ten_digits, Hx. Qed.

Lemma add_phone_invalid (self : ContactRecord) (x : string) :
  ten_digits x = false ->
  add_phone self x = (self, Raise (ValueError "Invalid phone number")).
Proof. intros Hx. unfold add_phone. now rewrite Phone_init_ten_digits, Hx. Qed.

(** X2: a text of ten digits given to [add_phone] becomes the last phone
    of the record, the phones before it staying as they were; [find_phone]
    then finds a phone with that text, and what it finds for any other text
    is what it found before. *)
Theorem add_phone_then_find (self : ContactRecord) (x : string) :
  ten_digits x = true ->
  add_phone self x = (set_phones self (phones self ++ [mkPhone x]), Ok tt) /\
  (exists p, find_phone (fst (add_phone self x)) x = Some p /\ Phone_str p = x) /\
  (forall y, y <> x ->
     find_phone (fst (add_phone self x)) y = find_phone self y).
Proof.
  intros Hx. rewrite (add_phone_valid self x Hx).
  split; [reflexivity|]. destruct self as [n ps b].
  unfold set_phones. cbn [fst phones name birthday]. split.
  - rewrite find_phone_app.
    destruct (find_phone (mkRecord n ps b) x) as [p|] eqn:F.
    + exists p. split; [reflexivity|].
      destruct (find_phone_Some _ x p F) as (_ & _ & _ & H & _). exact H.
    + exists (mkPhone x). rewrite find_phone_cons. cbn [Phone_str Phone_value].
      now rewrite String.eqb_refl.
  - intros y Hy. rewrite find_phone_app.
    destruct (find_phone (mkRecord n ps b) y); [reflexivity|].
    rewrite find_phone_cons. cbn [Phone_str Phone_value].
    apply not_eq_sym in Hy. apply String.eqb_neq in Hy. now rewrite Hy.
Qed.

Lemma add_phone_then_find_witness :
  add_phone two_same "2222222222" =
    (set_phones two_same (phones two_same ++ [mkPhone "2222222222"]), Ok tt).
Proof.
  exact (proj1 (add_phone_then_find two_same "2222222222" eq_refl)).
Defined.

(** X3: after [remove_phone] no phone with the removed text can be found,
    and looking for any other text gives what it gave before. *)
Theorem remove_phone_then_find (self : ContactRecord) (x : string) :
  find_phone (remove_phone self x) x = None /\
  (forall y, y <> x ->
     find_phone (remove_phone self x) y = find_phone self y).
Proof.
  split.
  - apply find_phone_None. intros p Hp.
    now apply (without_In _ _ _ (without_filter x (phones self))) in Hp.
  - intros y Hy. destruct self as [n ps b]. unfold remove_phone, set_phones.
    cbn [phones name birthday].
    induction ps as [|a ps IH]; [reflexivity|]. cbn [filter].
    destruct (String.eqb_spec (Phone_str a) x) as [E|E]; cbn [negb];
      rewrite ?find_phone_cons, IH; [|reflexivity].
    rewrite E. apply not_eq_sym in Hy. apply String.eqb_neq in Hy. now rewrite Hy.
Qed.

Lemma edit_phone_nonempty (self : ContactRecord) (old new : string)
    (ps : list Phone) (p : Phone) :
  ten_digits new = true ->
  phones self = (ps ++ [p])%list ->
  edit_phone self old new =
    (set_phones self (replace_all old (mkPhone new) (phones self)),
     if (Phone_str p =? old)%string then Ok tt
     else Raise (ValueError not_found_msg)).
Proof.
  intros Hn Hps.
  assert (Hq : Phone_init new = Ok (mkPhone new))
    by now rewrite Phone_init_ten_digits, Hn.
  unfold edit_phone.
  rewrite (edit_phone_loop_valid old new _ Hq), Hps, last_visited_app.
  now destruct (Phone_str p =? old)%string.
Qed.

(** X4: with a valid new number and at least one phone in the record,
    [edit_phone] replaces every phone equal to the old number, and whether
    it then returns or raises the "not found" ValueError is decided by the
    record's last phone alone: it returns exactly when that phone, as it
    was before the call, equals the old number. *)
Theorem edit_phone_last_decides (self : ContactRecord) (old new : string)
    (ps : list Phone) (p : Phone) :
  ten_digits new = true ->
  phones self = (ps ++ [p])%list ->
  phones (fst (edit_phone self old new)) =
    replace_all old (mkPhone new) (phones self) /\
  (snd (edit_phone self old new) = Ok tt <-> Phone_str p = old) /\
  (snd (edit_phone self old new) = Raise (ValueError not_found_msg) <->
   Phone_str p <> old).
Proof.
  intros Hn Hps. rewrite (edit_phone_nonempty self old new ps p Hn Hps).
  cbn [fst snd set_phones phones]. split; [reflexivity|].
  destruct (String.eqb_spec (Phone_str p) old) as [E|E].
  - split; [tauto|]. split; [discriminate | contradiction].
  - split; [|tauto]. split; [discriminate | contradiction].
Qed.

Lemma edit_phone_last_decides_witness :
  phones (fst (edit_phone first_of_two "1111111111" "3333333333")) =
    replace_all "1111111111" (mkPhone "3333333333") (phones first_of_two).
Proof.
  exact (proj1 (edit_phone_last_decides first_of_two "1111111111" "3333333333"
           [mkPhone "1111111111"] (mkPhone "2222222222") eq_refl eq_refl)).
Defined.

Lemma find_phone_replace_all_old (n : Name) (b : option Birthday)
    (old new : string) (ps : list Phone) :
  old <> new ->
  find_phone (mkRecord n (replace_all old (mkPhone new) ps) b) old = None.
Proof.
  intros Hne. apply find_phone_None. cbn [phones]. unfold replace_all.
  intros p Hp. apply in_map_iff in Hp as [a [<- _]].
  destruct (String.eqb_spec (Phone_str a) old) as [E|E]; [|exact E].
  cbn. now apply not_eq_sym.
Qed.

Lemma edit_phone_Ok_shape (self self' : ContactRecord) (old new : string) :
  edit_phone self old new = (self', Ok tt) ->
  ten_digits new = true /\
  exists ps p, phones self = (ps ++ [p])%list /\ Phone_str p = old /\
    self' = set_phones self (replace_all old (mkPhone new) (phones self)).
Proof.
  intros H.
  destruct (phones self) as [|a l] eqn:Eps using rev_ind.
  - unfold edit_phone in H. rewrite Eps in H. cbn in H. discriminate.
  - clear IHl.
    destruct (ten_digits new) eqn:Hn.
    + split; [reflexivity|].
      rewrite (edit_phone_nonempty self old new l a Hn Eps) in H.
      destruct (String.eqb_spec (Phone_str a) old) as [E|E]; [|discriminate].
      exists l, a. split; [reflexivity|]. split; [exact E|].
      inversion H. now rewrite Eps.
    + exfalso.
      assert (Hr : Phone_init new = Raise (ValueError "Invalid phone number"))
        by now rewrite Phone_init_ten_digits, Hn.
      destruct (find_phone self old) as [p|] eqn:F.
      * destruct (find_phone_Some self old p F)
          as (before & after & Hp & Hx & _).
        rewrite (edit_phone_invalid_new self old new _ Hr) in H; [discriminate|].
        exists p. split; [rewrite Hp; apply in_elt | exact Hx].
      * pose proof (proj1 (find_phone_None self old) F) as F'.
        unfold edit_phone in H.
        rewrite (edit_phone_loop_none old new _ _ F'), Eps, last_visited_app in H.
        assert (Ha : Phone_str a <> old)
          by (apply F'; rewrite Eps; apply in_elt).
        apply String.eqb_neq in Ha. rewrite Ha in H. discriminate.
Qed.

(** X5: when [edit_phone] returns, and the new number differs from the
    old, no phone with the old number is left in the record and a phone
    with the new number can be found. *)
Theorem edit_phone_then_find (self self' : ContactRecord) (old new : string) :
  edit_phone self old new = (self', Ok tt) ->
  old <> new ->
  find_phone self' old = None /\
  exists p, find_phone self' new = Some p /\ Phone_str p = new.
Proof.
  intros H Hne.
  destruct (edit_phone_Ok_shape self self' old new H)
    as (Hn & ps & p & Hps & Hp & ->).
  destruct self as [n l b]. unfold set_phones. cbn [phones name birthday] in *.
  split; [now apply find_phone_replace_all_old|].
  destruct (find_phone (mkRecord n (replace_all old (mkPhone new) l) b) new)
    as [q|] eqn:F.
  - exists q. split; [reflexivity|].
    destruct (find_phone_Some _ new q F) as (_ & _ & _ & Hq & _).
    exact Hq.
  - exfalso. pose proof (proj1 (find_phone_None _ _) F) as F'.
    cbn [phones] in F'. apply (F' (mkPhone new)); [|reflexivity].
    subst l. unfold replace_all. rewrite map_app. apply in_or_app. right.
    cbn [map]. apply String.eqb_eq in Hp. rewrite Hp. now left.
Qed.

Lemma edit_phone_then_find_witness :
  find_phone (set_phones two_same [mkPhone "3333333333"; mkPhone "3333333333"])
    "1111111111" = None.
Proof.
  refine (proj1 (edit_phone_then_find two_same _ "1111111111" "3333333333" _ _)).
  - reflexivity.
  - discriminate.
Defined.

Lemma add_birthday_cases (self : ContactRecord) (raw : string) :
  (date_text raw /\
   add_birthday self raw =
     (mkRecord (name self) (phones self) (Some (mkBirthday raw)), Ok tt)) \/
  (~ date_text raw /\ add_birthday self raw = (self, Raise format_error)).
Proof.
  unfold add_birthday.
  destruct (Birthday_init_cases raw) as [[Hs Hb]|[Hs Hb]]; rewrite Hb.
  - left. split; [now apply strptime_date_text | reflexivity].
  - right. split; [|reflexivity].
    intros H. apply strptime_date_text in H as [t H]. now destruct (Hs t).
Qed.

(** X6: [add_birthday] on a record either stores the text as the record's
    birthday, replacing any earlier one and touching nothing else, when the
    text is a date text, or raises the date-format ValueError and leaves
    the record as it was; a stored text is one that the birthday query can
    parse again. *)
Theorem add_birthday_sets (self : ContactRecord) (raw : string) :
  ((date_text raw /\
    add_birthday self raw =
      (mkRecord (name self) (phones self) (Some (mkBirthday raw)), Ok tt)) \/
   (~ date_text raw /\ add_birthday self raw = (self, Raise format_error))) /\
  (forall b, birthday (fst (add_birthday self raw)) = Some b ->
     birthday self = Some b \/ exists t, strptime (Birthday_value b) = Ok t).
Proof.
  split; [apply add_birthday_cases|].
  destruct (add_birthday_cases self raw) as [[Hd ->]|[_ ->]]; cbn [fst birthday].
  - intros b H. inversion H. right. now apply strptime_date_text.
  - intros b H. now left.
Qed.

Lemma edit_phone_loop_Forall (P : Phone -> Prop) (old new : string) :
  (forall q, Phone_init new = Ok q -> P q) ->
  forall ps v, Forall P ps -> Forall P (fst (edit_phone_loop old new ps v)).
Proof.
  intros Hq. induction ps as [|a ps IH]; intros v Hps; cbn [edit_phone_loop].
  - constructor.
  - inversion Hps as [|? ? Ha Hps']; subst.
    specialize (IH (Some a) Hps').
    destruct (Phone_str a =? old)%string.
    + destruct (Phone_init new) as [q|e] eqn:E; [|exact Hps].
      destruct (edit_phone_loop old new ps (Some a)) as [rest' r].
      cbn [fst] in *. constructor; [now apply Hq | exact IH].
    + destruct (edit_phone_loop old new ps (Some a)) as [rest' r].
      cbn [fst] in *. now constructor.
Qed.

Lemma edit_phone_fields (self : ContactRecord) (old new : string) :
  fst (edit_phone self old new) =
  set_phones self (fst (edit_phone_loop old new (phones self) None)).
Proof.
  unfold edit_phone.
  destruct (edit_phone_loop old new (phones self) None) as [ps [[phone|]|e]];
    cbn [fst]; try reflexivity.
  now destruct (negb (Phone_str phone =? old)%string).
Qed.

Lemma add_phone_keeps_valid (self : ContactRecord) (x : string) :
  valid_record self -> valid_record (fst (add_phone self x)).
Proof.
  intros [Hp Hb]. unfold add_phone. rewrite Phone_init_ten_digits.
  destruct (ten_digits x) eqn:E; cbn [fst]; [|now split].
  split; [|exact Hb]. cbn [set_phones phones].
  apply Forall_app. split; [exact Hp|]. now repeat constructor.
Qed.

Lemma edit_phone_keeps_valid (self : ContactRecord) (x y : string) :
  valid_record self -> valid_record (fst (edit_phone self x y)).
Proof.
  intros [Hp Hb]. rewrite edit_phone_fields. split; [|exact Hb].
  cbn [set_phones phones]. apply edit_phone_loop_Forall; [|exact Hp].
  intros q. rewrite Phone_init_ten_digits.
  destruct (ten_digits y) eqn:E; [|discriminate].
  intros H. inversion H. exact E.
Qed.

Lemma add_birthday_keeps_valid (self : ContactRecord) (x : string) :
  valid_record self -> valid_record (fst (add_birthday self x)).
Proof.
  intros [Hp Hb].
  destruct (add_birthday_cases self x) as [[Hd ->]|[_ ->]]; cbn [fst];
    [|now split].
  split; [exact Hp|]. cbn [birthday]. intros b H. inversion H. exact Hd.
Qed.

(** X7: the methods keep a record well formed: if every phone of a record
    is ten digits and its birthday, if set, is a date text, the same holds
    after [add_phone], [remove_phone], [edit_phone] and [add_birthday] with
    any arguments, whether the call returns or raises. *)
Theorem methods_keep_valid (self : ContactRecord) (x y : string) :
  valid_record self ->
  valid_record (fst (add_phone self x)) /\
  valid_record (remove_phone self x) /\
  valid_record (fst (edit_phone self x y)) /\
  valid_record (fst (add_birthday self x)).
Proof.
  intros H. split; [now apply add_phone_keeps_valid|].
  split; [|split;
    [now apply edit_phone_keeps_valid | now apply add_birthday_keeps_valid]].
  destruct H as [Hp Hb]. split; [|exact Hb].
  unfold remove_phone. cbn [set_phones phones].
  apply Forall_forall. intros p Hin. apply filter_In in Hin as [Hin _].
  revert p Hin. now apply Forall_forall.
Qed.

Lemma methods_keep_valid_witness :
  valid_record (fst (edit_phone first_of_two "1111111111" "3333333333")).
Proof.
  refine (proj1 (proj2 (proj2
    (methods_keep_valid first_of_two "1111111111" "3333333333" _)))).
  split; [repeat constructor | discriminate].
Defined.

(** * Further properties of the address book *)

Lemma dict_get_In (k : string) (d : dict) (r : ContactRecord) :
  dict_get k d = Some r -> In (k, r) d.
Proof.
  induction d as [|[k' v'] d IH]; cbn [dict_get]; [discriminate|].
  destruct (String.eqb_spec k' k) as [->|Hne].
  - intros H. inversion H. now left.
  - intros H. right. now apply IH.
Qed.

Lemma dict_get_None (k : string) (d : dict) :
  dict_get k d = None <-> ~ In k (dict_keys d).
Proof.
  induction d as [|[k' v'] d IH]; cbn [dict_get dict_keys map fst].
  - split; [intros _ [] | reflexivity].
  - destruct (String.eqb_spec k' k) as [->|Hne].
    + split; [discriminate | intros H; exfalso; apply H; now left].
    + rewrite IH. unfold dict_keys. split.
      * intros H [E|Hin]; [contradiction | now apply H].
      * intros H Hin. apply H. now right.
Qed.

Lemma dict_set_absent (k : string) (v : ContactRecord) (d : dict) :
  dict_get k d = None -> dict_set k v d = (d ++ [(k, v)])%list.
Proof.
  induction d as [|[k' v'] d IH]; cbn [dict_get dict_set]; [reflexivity|].
  destruct (k' =? k)%string; [discriminate|].
  intros H. now rewrite (IH H).
Qed.


Lemma dict_set_set (k : string) (v v' : ContactRecord) (d : dict) :
  dict_set k v' (dict_set k v d) = dict_set k v' d.
Proof.
  induction d as [|[k' w] d IH]; cbn [dict_set].
  - now rewrite String.eqb_refl.
  - destruct (k' =? k)%string eqn:E; cbn [dict_set]; rewrite E;
      [reflexivity | now rewrite IH].
Qed.

Lemma dict_del_absent (k : string) (d : dict) :
  dict_del k d = None <-> dict_get k d = None.
Proof.
  induction d as [|[k' v'] d IH]; cbn [dict_del dict_get]; [tauto|].
  destruct (k' =? k)%string; [split; discriminate|].
  destruct (dict_del k d); [|tauto].
  split; [discriminate|]. intros H. apply IH in H. discriminate.
Qed.

Lemma dict_del_keys (k : string) (d d' : dict) :
  NoDup (dict_keys d) -> dict_del k d = Some d' ->
  dict_keys d' = filter (fun k' => negb (k' =? k)%string) (dict_keys d).
Proof.
  revert d'. induction d as [|[k' v'] d IH]; intros d' Hnd; cbn [dict_del];
    [discriminate|].
  inversion Hnd as [|? ? Hout Hnd']; subst.
  cbn [dict_keys map fst filter].
  destruct (String.eqb_spec k' k) as [->|Hne]; cbn [negb].
  - intros H. inversion H; subst d'. symmetry.
    apply forallb_filter_id. apply forallb_forall.
    intros x Hx. destruct (String.eqb_spec x k) as [->|]; [contradiction | reflexivity].
  - destruct (dict_del k d) as [d0|] eqn:E; [|discriminate].
    intros H. inversion H; subst d'. cbn [dict_keys map fst]. f_equal.
    now apply IH.
Qed.

Lemma dict_del_get_other (k k' : string) (d d' : dict) :
  dict_del k d = Some d' -> k' <> k -> dict_get k' d' = dict_get k' d.
Proof.
  revert d'. induction d as [|[k0 v0] d IH]; intros d'; cbn [dict_del];
    [discriminate|].
  destruct (String.eqb_spec k0 k) as [->|Hne].
  - intros H Hk. inversion H; subst d'. cbn [dict_get].
    destruct (String.eqb_spec k k'); [congruence | reflexivity].
  - destruct (dict_del k d) as [d0|] eqn:E; [|discriminate].
    intros H Hk. inversion H; subst d'. cbn [dict_get].
    destruct (k0 =? k')%string; [reflexivity | now apply IH].
Qed.

(** X8: [delete] of a name the book does not hold raises KeyError with
    that name and changes nothing; [delete] of a stored name returns, after
    which [find] gives nothing for that name and what it gave before for
    every other name, the remaining keys keeping their order. *)
Theorem delete_then_find (book : AddressBook) (n : string) :
  NoDup (dict_keys (data book)) ->
  (find_record book n = None /\
   delete book n = (book, Raise (KeyError n))) \/
  ((exists r, find_record book n = Some r) /\
   snd (delete book n) = Ok tt /\
   find_record (fst (delete book n)) n = None /\
   (forall k, k <> n ->
      find_record (fst (delete book n)) k = find_record book k) /\
   dict_keys (data (fst (delete book n))) =
     filter (fun k => negb (k =? n)%string) (dict_keys (data book))).
Proof.
  intros Hnd. unfold delete, find_record.
  destruct (dict_del n (data book)) as [d|] eqn:E.
  - right. cbn [fst snd data].
    pose proof (dict_del_keys n _ d Hnd E) as K.
    split; [|split; [reflexivity|split; [|split; [|exact K]]]].
    + destruct (dict_get n (data book)) as [r|] eqn:G; [now exists r|].
      apply dict_del_absent in G. congruence.
    + apply dict_get_None. rewrite K. intros H. apply filter_In in H as [_ H].
      now rewrite String.eqb_refl in H.
    + intros k Hk. now apply (dict_del_get_other n k (data book)).
  - left. apply dict_del_absent in E. now split.
Qed.

Lemma delete_then_find_witness :
  (find_record sample_book "Zed" = None /\
   delete sample_book "Zed" = (sample_book, Raise (KeyError "Zed"))) \/
  ((exists r, find_record sample_book "Zed" = Some r) /\
   snd (delete sample_book "Zed") = Ok tt /\
   find_record (fst (delete sample_book "Zed")) "Zed" = None /\
   (forall k, k <> "Zed" ->
      find_record (fst (delete sample_book "Zed")) k = find_record sample_book k) /\
   dict_keys (data (fst (delete sample_book "Zed"))) =
     filter (fun k => negb (k =? "Zed")%string) (dict_keys (data sample_book))).
Proof.
  apply (delete_then_find sample_book "Zed").
  repeat constructor; cbn; intuition discriminate.
Defined.


(** * Further properties of the commands *)

Lemma add_contact_body_valid (book : AddressBook) (n phone : string)
    (rest : list string) :
  ten_digits phone = true ->
  add_contact_body (n :: phone :: rest) book =
  match find_record book n with
  | None =>
      (mkBook (dict_set n (mkRecord (Name_init n) [mkPhone phone] None) (data book))
              (today book),
       Ok "Contact added.")
  | Some r =>
      (mkBook (dict_set n (set_phones r (phones r ++ [mkPhone phone])) (data book))
              (today book),
       Ok "Contact updated.")
  end.
Proof.
  intros Hp. unfold add_contact_body.
  destruct (find_record book n) as [r|] eqn:F.
  - now rewrite (add_phone_valid r phone Hp).
  - rewrite (add_phone_valid _ phone Hp). unfold add_record.
    cbn [Record_init Name_init name value data today].
    now rewrite dict_set_set.
Qed.

(** X10: the add command with a phone of ten digits answers "Contact
    added." for a name that is not in the book and "Contact updated." for
    one that is; afterwards the name holds a record whose phones are the
    ones it had (none for a new name) followed by the new phone, and every
    other name holds what it held. *)
Theorem add_contact_appends (book : AddressBook) (n phone : string)
    (rest : list string) :
  ten_digits phone = true ->
  snd (add_contact (n :: phone :: rest) book) =
    Ok (match find_record book n with
        | None => "Contact added."
        | Some _ => "Contact updated."
        end) /\
  find_record (fst (add_contact (n :: phone :: rest) book)) n =
    Some (match find_record book n with
          | None => mkRecord (Name_init n) [mkPhone phone] None
          | Some r => set_phones r (phones r ++ [mkPhone phone])
          end) /\
  (forall k, k <> n ->
     find_record (fst (add_contact (n :: phone :: rest) book)) k =
     find_record book k).
Proof.
  intros Hp. unfold add_contact.
  rewrite (add_contact_body_valid book n phone rest Hp).
  destruct (find_record book n) as [r|]; cbn [input_error fst snd];
    (split; [reflexivity|]); unfold find_record; cbn [data];
    (split; [apply dict_get_set_same | intros k Hk; now apply dict_get_set_other]).
Qed.

Lemma add_contact_appends_witness :
  snd (add_contact ["Ann"; "3333333333"] sample_book) = Ok "Contact updated.".
Proof.
  exact (proj1 (add_contact_appends sample_book "Ann" "3333333333" [] eq_refl)).
Defined.

Lemma edit_phone_no_phones_raises (self : ContactRecord) (old new : string) :
  phones self = [] ->
  exists msg, edit_phone self old new = (self, Raise (UnboundLocalError msg)).
Proof.
  intros H. unfold edit_phone. rewrite H. cbn. eexists.
  destruct self as [n ps b]. cbn in H. subst ps. reflexivity.
Qed.

Lemma edit_phone_with_phones (self : ContactRecord) (old new : string) :
  phones self <> [] ->
  snd (edit_phone self old new) = Ok tt \/
  exists msg, snd (edit_phone self old new) = Raise (ValueError msg).
Proof.
  intros Hne.
  destruct (phones self) as [|a l] eqn:Eps using rev_ind; [contradiction|].
  clear IHl Hne.
  destruct (ten_digits new) eqn:Hn.
  - rewrite (edit_phone_nonempty self old new l a Hn Eps). cbn [snd].
    destruct (Phone_str a =? old)%string; [now left | right; eauto].
  - assert (Hr : Phone_init new = Raise (ValueError "Invalid phone number"))
      by now rewrite Phone_init_ten_digits, Hn.
    right. destruct (find_phone self old) as [p|] eqn:F.
    + destruct (find_phone_Some self old p F) as (before & after & Hp & Hx & _).
      rewrite (edit_phone_invalid_new self old new _ Hr); [cbn; eauto|].
      exists p. split; [rewrite Hp; apply in_elt | exact Hx].
    + pose proof (proj1 (find_phone_None self old) F) as F'.
      unfold edit_phone.
      rewrite (edit_phone_loop_none old new _ _ F'), Eps, last_visited_app.
      assert (Ha : Phone_str a <> old) by (apply F'; rewrite Eps; apply in_elt).
      apply String.eqb_neq in Ha. rewrite Ha. cbn. eauto.
Qed.

(** X11: the change command lets an exception through its decorator
    exactly when it is given at least three arguments and the named contact
    exists and has no phones; the exception is then an UnboundLocalError.
    In every other case it returns a text. *)
Theorem change_contact_escapes (args : list string) (book : AddressBook) :
  ((exists text, snd (change_contact args book) = Ok text) /\
   ~ (exists n old new rest r,
        args = n :: old :: new :: rest /\
        find_record book n = Some r /\ phones r = [])) \/
  ((exists msg, snd (change_contact args book) = Raise (UnboundLocalError msg)) /\
   exists n old new rest r,
     args = n :: old :: new :: rest /\
     find_record book n = Some r /\ phones r = []).
Proof.
  unfold change_contact, change_contact_body.
  destruct args as [|n [|old [|new rest]]];
    try (left; split; [cbn; eauto | intros (? & ? & ? & ? & ? & H & _); discriminate]).
  destruct (find_record book n) as [r|] eqn:F.
  - destruct (phones r) as [|a l] eqn:Eps.
    + right. destruct (edit_phone_no_phones_raises r old new Eps) as [msg ->].
      split; [cbn; eauto|]. now exists n, old, new, rest, r.
    + left. split.
      * assert (Hne : phones r <> []) by (rewrite Eps; discriminate).
        destruct (edit_phone r old new) as [r' o] eqn:E.
        pose proof (edit_phone_with_phones r old new Hne) as O.
        rewrite E in O. cbn [snd] in O.
        destruct O as [->|[msg ->]]; cbn; eauto.
      * intros (n' & ? & ? & ? & r' & H & F' & Heq). inversion H; subst.
        rewrite F in F'. inversion F'; subst. rewrite Eps in Heq. discriminate.
  - left. split; [cbn; eauto|].
    intros (n' & ? & ? & ? & r' & H & F' & _). inversion H; subst. congruence.
Qed.

Example change_contact_no_phones :
  exists msg,
    change_contact ["Bob"; "1111111111"; "2222222222"] sample_book =
      (sample_book, Raise (UnboundLocalError msg)).
Proof. eexists. reflexivity. Qed.

(** X12: for a contact that has phones and a valid new number, the change
    command replaces every phone equal to the old number in the book's
    record, and its answer depends on the contact's last phone alone:
    "updated successfully" when that phone equals the old number, the "old
    phone number not found" text otherwise, replacements made or not. *)
Theorem change_contact_last_decides (book : AddressBook) (n old new : string)
    (rest : list string) (r : ContactRecord) (ps : list Phone) (p : Phone) :
  find_record book n = Some r ->
  phones r = (ps ++ [p])%list ->
  ten_digits new = true ->
  change_contact (n :: old :: new :: rest) book =
    (mkBook (dict_set n (set_phones r (replace_all old (mkPhone new) (phones r)))
               (data book)) (today book),
     Ok (if (Phone_str p =? old)%string
         then "Phone number updated successfully."
         else not_found_msg)).
Proof.
  intros F Hps Hn. unfold change_contact, change_contact_body.
  rewrite F, (edit_phone_nonempty r old new ps p Hn Hps).
  now destruct (Phone_str p =? old)%string.
Qed.

Lemma change_contact_last_decides_witness :
  change_contact ["Ann"; "1111111111"; "3333333333"] sample_book =
    (mkBook
       (dict_set "Ann"
          (mkRecord (Name_init "Ann")
             [mkPhone "3333333333"; mkPhone "2222222222"]
             (Some (mkBirthday "12.06.1990")))
          (data sample_book)) (today sample_book),
     Ok not_found_msg).
Proof.
  exact (change_contact_last_decides sample_book "Ann" "1111111111" "3333333333"
           [] _ [mkPhone "1111111111"] (mkPhone "2222222222")
           eq_refl eq_refl eq_refl).
Defined.

(** X13: the commands add, phone, all and add-birthday never let an
    exception through: each returns a text for every argument list and
    book; phone and all leave the book as it is. *)
Theorem commands_return_text (args : list string) (book : AddressBook) :
  (exists text, snd (add_contact args book) = Ok text) /\
  (exists text, show_phones args book = (book, Ok text)) /\
  (exists text, show_all book = (book, Ok text)) /\
  (exists text, snd (add_birthday_command args book) = Ok text).
Proof.
  split; [|split; [|split]].
  - unfold add_contact, add_contact_body.
    destruct args as [|n [|phone rest]]; try (cbn; eauto; fail).
    destruct (find_record book n) as [r|];
      [destruct (ten_digits phone) eqn:E;
       [rewrite (add_phone_valid r phone E) | rewrite (add_phone_invalid r phone E)]
      |destruct (ten_digits phone) eqn:E;
       [rewrite (add_phone_valid _ phone E) | rewrite (add_phone_invalid _ phone E)]];
      cbn; eauto.
  - unfold show_phones, show_phones_body.
    destruct args as [|n rest]; [cbn; eauto|].
    destruct (find_record book n); cbn; eauto.
  - unfold show_all. cbn. eauto.
  - unfold add_birthday_command, add_birthday_command_body.
    destruct args as [|n [|b rest]]; try (cbn; eauto; fail).
    destruct (find_record book n) as [r|]; [|cbn; eauto].
    destruct (add_birthday_cases r b) as [[_ ->]|[_ ->]]; cbn; eauto.
Qed.

(** X14: after the add command has added a phone of ten digits under a
    name, the phone command for that name lists the contact's phones in the
    order they were added, separated by ", ", the new one last. *)
Theorem show_phones_after_add (book : AddressBook) (n phone : string)
    (rest rest' : list string) :
  ten_digits phone = true ->
  snd (show_phones (n :: rest')
         (fst (add_contact (n :: phone :: rest) book))) =
    Ok (String.concat ", "
          (match find_record book n with
           | None => [phone]
           | Some r => (map Phone_str (phones r) ++ [phone])%list
           end)).
Proof.
  intros Hp. unfold add_contact.
  rewrite (add_contact_body_valid book n phone rest Hp).
  unfold show_phones, show_phones_body.
  destruct (find_record book n) as [r|]; cbn [input_error fst snd];
    unfold find_record; cbn [data]; rewrite dict_get_set_same; cbn [snd];
    [|reflexivity].
  cbn [set_phones phones]. now rewrite map_app.
Qed.

Lemma show_phones_after_add_witness :
  snd (show_phones ["Ann"] (fst (add_contact ["Ann"; "3333333333"] sample_book))) =
    Ok "1111111111, 2222222222, 3333333333".
Proof.
  exact (show_phones_after_add sample_book "Ann" "3333333333" [] [] eq_refl).
Defined.

(** X15: for a contact that exists, show-birthday answers "Contact not
    found." while no birthday is set; once add-birthday has been given a
    date text, it answers with that text exactly as it was entered. *)
Theorem show_birthday_after_add (book : AddressBook) (n : string)
    (r : ContactRecord) (rest rest' : list string) :
  find_record book n = Some r ->
  (birthday r = None ->
   show_birthday (n :: rest) book = inr (book, Ok "Contact not found.")) /\
  (forall raw, date_text raw ->
     snd (add_birthday_command (n :: raw :: rest) book) =
       Ok "Birthday added/updated successfully." /\
     show_birthday (n :: rest')
       (fst (add_birthday_command (n :: raw :: rest) book)) =
       inr (fst (add_birthday_command (n :: raw :: rest) book),
            Ok (n ++ "'s birthday: " ++ raw))).
Proof.
  intros F. split.
  - intros Hb. unfold show_birthday, show_birthday_body. now rewrite F, Hb.
  - intros raw Hd. unfold add_birthday_command, add_birthday_command_body.
    rewrite F.
    destruct (add_birthday_cases r raw) as [[_ ->]|[Hn _]]; [|contradiction].
    cbn [input_error fst snd]. split; [reflexivity|].
    unfold show_birthday, show_birthday_body, find_record. cbn [data].
    now rewrite dict_get_set_same.
Qed.

Lemma show_birthday_after_add_witness :
  show_birthday ["Bob"] sample_book = inr (sample_book, Ok "Contact not found.").
Proof.
  exact (proj1 (show_birthday_after_add sample_book "Bob" (Record_init "Bob")
                  [] [] eq_refl) eq_refl).
Defined.

(** * Further properties of the birthday query *)

Lemma days_before_year_mono (y1 y2 : Z) :
  y1 <= y2 -> days_before_year y1 <= days_before_year y2.
Proof.
  unfold days_before_year. cbv zeta. intros H.
  Z.to_euclidean_division_equations; lia.
Qed.

Ltac eval_month_tables :=
  repeat match goal with
  | |- context [DAYS_BEFORE_MONTH ?k] =>
      let v := eval vm_compute in (DAYS_BEFORE_MONTH k) in
      change (DAYS_BEFORE_MONTH k) with v
  | H : context [DAYS_BEFORE_MONTH ?k] |- _ =>
      let v := eval vm_compute in (DAYS_BEFORE_MONTH k) in
      change (DAYS_BEFORE_MONTH k) with v in H
  end;
  cbv beta iota delta [Z.eqb Z.ltb Z.compare Pos.compare Pos.compare_cont
                       Pos.eqb orb andb] in *.

Lemma month_end_before_next (y m1 m2 d : Z) :
  1 <= m1 -> m1 < m2 -> m2 <= 12 -> d <= days_in_month y m1 ->
  days_before_month y m1 + d <= days_before_month y m2.
Proof.
  intros H1 H12 H2 Hd.
  assert (M1 : 1 <= m1 <= 12) by lia. assert (M2 : 1 <= m2 <= 12) by lia.
  unfold days_before_month, days_in_month in *.
  destruct (is_leap y);
    destruct (month_cases m1 M1) as
      [->|[->|[->|[->|[->|[->|[->|[->|[->|[->|[->| ->]]]]]]]]]]];
    destruct (month_cases m2 M2) as
      [->|[->|[->|[->|[->|[->|[->|[->|[->|[->|[->| ->]]]]]]]]]]];
    try lia; eval_month_tables; lia.
Qed.

Lemma days_before_month_nonneg (y m : Z) :
  1 <= m <= 12 -> 0 <= days_before_month y m.
Proof.
  intros M. unfold days_before_month.
  destruct (is_leap y);
    destruct (month_cases m M) as
      [->|[->|[->|[->|[->|[->|[->|[->|[->|[->|[->| ->]]]]]]]]]]];
    eval_month_tables; lia.
Qed.

(** The ordinal follows the order of (year, month, day). *)
Lemma toordinal_lt (a b : date) :
  valid_date a -> valid_date b ->
  date_ltb a b = true -> toordinal a < toordinal b.
Proof.
  intros [Ya [Ma Da]] [Yb [Mb Db]] H.
  unfold date_ltb in H. unfold toordinal, ymd2ord.
  destruct (Z.ltb_spec (year a) (year b)) as [Hy|Hy].
  - pose proof (day_of_year_bounds _ _ _ Ma Da) as Ba.
    pose proof (day_of_year_bounds _ _ _ Mb Db) as Bb.
    pose proof (days_before_year_succ (year a)) as S.
    pose proof (days_before_year_mono (year a + 1) (year b) ltac:(lia)) as M.
    lia.
  - cbn [orb] in H. apply andb_true_iff in H as [Ey H].
    apply Z.eqb_eq in Ey. rewrite Ey in *.
    destruct (Z.ltb_spec (month a) (month b)) as [Hm|Hm].
    + pose proof (month_end_before_next (year b) (month a) (month b) (day a)
                    ltac:(lia) Hm ltac:(lia) ltac:(lia)).
      lia.
    + cbn [orb] in H. apply andb_true_iff in H as [Em H].
      apply Z.eqb_eq in Em. apply Z.ltb_lt in H. rewrite Em. lia.
Qed.

Lemma toordinal_le (a b : date) :
  valid_date a -> valid_date b ->
  date_ltb a b = false -> toordinal b <= toordinal a.
Proof.
  intros Va Vb H.
  destruct (date_ltb b a) eqn:L; [apply Z.lt_le_incl; now apply toordinal_lt|].
  assert (E : year a = year b /\ month a = month b /\ day a = day b).
  { unfold date_ltb in *.
    repeat match goal with
    | H : context [?x <? ?y] |- _ => destruct (Z.ltb_spec x y)
    | H : context [?x =? ?y] |- _ => destruct (Z.eqb_spec x y)
    end; cbn in *; try discriminate; lia. }
  destruct E as [E1 [E2 E3]]. unfold toordinal. now rewrite E1, E2, E3.
Qed.

Lemma birthday_this_year_not_before (now bd bty : date) :
  valid_date now -> birthday_this_year now bd = Ok bty ->
  0 <= date_sub_days bty now.
Proof.
  intros Vn H. unfold date_sub_days, birthday_this_year in *.
  destruct (date_init (year now) (month bd) (day bd)) as [t|e] eqn:E;
    cbn [bind] in H; [|discriminate].
  apply date_init_Ok in E as [-> Vt].
  destruct (date_ltb _ now) eqn:L.
  - apply date_init_Ok in H as [-> Vb].
    assert (date_ltb now (mkdate (year now + 1) (month bd) (day bd)) = true).
    { unfold date_ltb. cbn [year month day].
      replace (year now <? year now + 1) with true; [reflexivity|].
      symmetry. apply Z.ltb_lt. lia. }
    pose proof (toordinal_lt _ _ Vn Vb H). lia.
  - inversion H; subst bty. pose proof (toordinal_le _ _ Vt Vn L). lia.
Qed.

(** X16: the lower bound of the window test never fails: the date the
    query settles on for a birthday, this year's or next year's, is never
    before the clock's date, so a record yields an entry exactly when that
    date is at most seven days ahead. *)
Theorem window_is_upper_bound_only (now : date) (user : ContactRecord)
    (b : Birthday) (bd bty : date) :
  valid_date now ->
  birthday user = Some b ->
  strptime (Birthday_value b) = Ok bd ->
  birthday_this_year now bd = Ok bty ->
  0 <= date_sub_days bty now /\
  ((exists e, next_birthday_of now user = Ok (Some e)) <->
   date_sub_days bty now <= 7).
Proof.
  intros Vn Hb Hp Hs.
  pose proof (birthday_this_year_not_before now bd bty Vn Hs) as H0.
  split; [exact H0|]. split.
  - intros [e He].
    destruct (Z_le_dec (date_sub_days bty now) 7) as [D|D]; [exact D|].
    rewrite (outside_window now user b bd bty Hb Hp Hs) in He by lia.
    discriminate.
  - intros H7.
    destruct (inside_window now user b bd bty Vn Hb Hp Hs ltac:(lia))
      as [e [He _]].
    now exists e.
Qed.

Lemma window_is_upper_bound_only_witness :
  0 <= date_sub_days (mkdate 2025 6 9) monday_10_june /\
  ((exists e, next_birthday_of monday_10_june (with_birthday "Ann" "09.06.1990")
              = Ok (Some e)) <->
   date_sub_days (mkdate 2025 6 9) monday_10_june <= 7).
Proof.
  refine (window_is_upper_bound_only monday_10_june
            (with_birthday "Ann" "09.06.1990") (mkBirthday "09.06.1990")
            (mkdate 1990 6 9) (mkdate 2025 6 9) _ eq_refl eq_refl eq_refl).
  repeat split; vm_compute; discriminate.
Defined.

Lemma date_add_days_ordinal (t c : date) (n : Z) :
  date_add_days t n = Ok c -> toordinal c = toordinal t + n.
Proof.
  unfold date_add_days.
  destruct ((0 <? _) && (_ <=? MAXORDINAL)); [|discriminate].
  intros H. injection H as <-. apply toordinal_ord2ymd.
Qed.

(** X17: the congratulation date of an entry is never a Saturday or
    Sunday and never before the clock's date; it is before the birthday
    itself exactly when the clock's date is a Saturday or Sunday and the
    birthday falls on a Saturday or Sunday five or more days later. *)
Theorem congratulation_date_position (now bty c : date) :
  0 <= date_sub_days bty now <= 7 ->
  congrats_date now bty = Ok c ->
  weekday c < 5 /\
  toordinal now <= toordinal c /\
  (toordinal c < toordinal bty <->
   5 <= weekday now /\ 5 <= weekday bty /\ 5 <= date_sub_days bty now).
Proof.
  unfold congrats_date, date_sub_days. intros Hw H.
  destruct (Z.leb_spec 5 (weekday bty)) as [Hb|Hb].
  - apply date_add_days_ordinal in H.
    unfold weekday in *. rewrite H.
    Z.to_euclidean_division_equations; lia.
  - inversion H; subst c. split; [exact Hb|]. lia.
Qed.

Lemma congratulation_date_position_witness :
  weekday (mkdate 2024 6 17) < 5 /\
  toordinal (mkdate 2024 6 15) <= toordinal (mkdate 2024 6 17) /\
  (toordinal (mkdate 2024 6 17) < toordinal (mkdate 2024 6 22) <->
   5 <= weekday (mkdate 2024 6 15) /\ 5 <= weekday (mkdate 2024 6 22) /\
   5 <= date_sub_days (mkdate 2024 6 22) (mkdate 2024 6 15)).
Proof.
  refine (congratulation_date_position (mkdate 2024 6 15) (mkdate 2024 6 22)
            (mkdate 2024 6 17) _ eq_refl).
  vm_compute. split; discriminate.
Defined.

Lemma leap_year_next (y : Z) : is_leap y = true -> is_leap (y + 1) = false.
Proof.
  unfold is_leap. intros H. apply andb_true_iff in H as [H4 _].
  apply Z.eqb_eq in H4.
  replace ((y + 1) mod 4 =? 0) with false; [reflexivity|].
  symmetry. apply Z.eqb_neq. Z.to_euclidean_division_equations; lia.
Qed.

Lemma leap_year_not_last (y : Z) : is_leap y = true -> y <= MAXYEAR -> y + 1 <= MAXYEAR.
Proof.
  unfold is_leap, MAXYEAR. intros H Hy. apply andb_true_iff in H as [H4 _].
  apply Z.eqb_eq in H4. Z.to_euclidean_division_equations; lia.
Qed.

Lemma leap_day_this_year (now bd : date) :
  valid_date now -> month bd = 2 -> day bd = 29 ->
  is_leap (year now) = false \/ date_ltb (mkdate (year now) 2 29) now = true ->
  birthday_this_year now bd = Raise (ValueError "day is out of range for month").
Proof.
  intros [[Y1 Y2] _] Hm Hd Hc. unfold birthday_this_year. rewrite Hm, Hd.
  assert (I : forall y, MINYEAR <= y <= MAXYEAR ->
                date_init y 2 29 =
                if is_leap y then Ok (mkdate y 2 29)
                else Raise (ValueError "day is out of range for month")).
  { intros y [A B]. unfold date_init, days_in_month.
    apply Z.leb_le in A, B. rewrite A, B. cbn [andb negb].
    change ((1 <=? 2) && (2 <=? 12)) with true. cbn [negb].
    change (2 =? 2) with true. cbv iota.
    now destruct (is_leap y). }
  rewrite (I (year now)) by lia.
  destruct (is_leap (year now)) eqn:L; [|reflexivity].
  destruct Hc as [Hc|Hc]; [discriminate|]. cbn [bind]. rewrite Hc.
  rewrite I by (pose proof (leap_year_not_last _ L Y2); unfold MINYEAR in *; lia).
  now rewrite (leap_year_next _ L).
Qed.

(** X18: a birthday on 29 February makes the loop body raise ValueError
    "day is out of range for month" whenever the clock's year is not a leap
    year, and also in a leap year once the clock is past 29 February (the
    date is then looked for in the next year). *)
Theorem leap_day_birthday_raises (now : date) (user : ContactRecord)
    (b : Birthday) (bd : date) :
  valid_date now ->
  birthday user = Some b ->
  strptime (Birthday_value b) = Ok bd ->
  month bd = 2 -> day bd = 29 ->
  is_leap (year now) = false \/ date_ltb (mkdate (year now) 2 29) now = true ->
  next_birthday_of now user = Raise (ValueError "day is out of range for month").
Proof.
  intros Vn Hb Hp Hm Hd Hc. unfold next_birthday_of. rewrite Hb, Hp. cbn [bind].
  now rewrite (leap_day_this_year now bd Vn Hm Hd Hc).
Qed.

Lemma leap_day_birthday_raises_witness :
  next_birthday_of (mkdate 2024 3 1) (with_birthday "Ann" "29.02.2000") =
    Raise (ValueError "day is out of range for month").
Proof.
  refine (leap_day_birthday_raises (mkdate 2024 3 1)
            (with_birthday "Ann" "29.02.2000") (mkBirthday "29.02.2000")
            (mkdate 2000 2 29) _ eq_refl eq_refl eq_refl eq_refl _).
  - repeat split; vm_compute; discriminate.
  - right. reflexivity.
Defined.

Lemma next_birthday_loop_raises (now : date) (e : exn) (user : ContactRecord)
    (after : list ContactRecord) :
  next_birthday_of now user = Raise e ->
  forall before acc,
    Forall (fun u => is_ok (next_birthday_of now u) = true) before ->
    next_birthday_loop now (before ++ user :: after) acc = Raise e.
Proof.
  intros He. induction before as [|u before IH]; intros acc Hb.
  - cbn. now rewrite He.
  - inversion Hb as [|? ? Hu Hb']; subst. cbn.
    destruct (next_birthday_of now u); [|discriminate]. cbn [bind].
    now apply IH.
Qed.

(** X19: the first record, in the order of the book, whose loop body
    raises decides the whole query: the query raises that exception and
    returns no entry, also for the records before it; the command birthdays
    then answers with the message of a ValueError and lets any other
    exception but KeyError through. *)
Theorem query_first_failure (clock : date) (book : AddressBook) (w : option Z)
    (args : list string) (before after : list ContactRecord)
    (user : ContactRecord) (e : exn) :
  dict_values (data book) = (before ++ user :: after)%list ->
  Forall (fun u => is_ok (next_birthday_of clock u) = true) before ->
  next_birthday_of clock user = Raise e ->
  snd (find_next_birthday clock book w) = Raise e /\
  snd (birthdays clock args book) =
    match e with
    | ValueError msg => Ok msg
    | KeyError _ => Ok "Contact not found."
    | _ => Raise e
    end.
Proof.
  intros Hv Hb He.
  assert (Q : snd (find_next_birthday clock book None) = Raise e /\
              snd (find_next_birthday clock book w) = Raise e).
  { unfold find_next_birthday. cbn [snd data]. rewrite Hv.
    now rewrite (next_birthday_loop_raises clock e user after He before [] Hb). }
  destruct Q as [Q0 Q]. split; [exact Q|].
  unfold birthdays, birthdays_body.
  destruct (find_next_birthday clock book None) as [book' r]. cbn [snd] in Q0.
  subst r. now destruct e.
Qed.

Lemma query_first_failure_witness :
  snd (birthdays (mkdate 2024 3 1) []
         (exec [AddRecord (with_birthday "Ann" "02.03.1990");
                AddRecord (with_birthday "Bob" "29.02.2000")])) =
    Ok "day is out of range for month".
Proof.
  refine (proj2 (query_first_failure (mkdate 2024 3 1)
            (exec [AddRecord (with_birthday "Ann" "02.03.1990");
                   AddRecord (with_birthday "Bob" "29.02.2000")]) None []
            [with_birthday "Ann" "02.03.1990"] []
            (with_birthday "Bob" "29.02.2000")
            (ValueError "day is out of range for month") eq_refl _ eq_refl)).
  repeat constructor.
Defined.

(** * Properties of parse_input *)

Lemma all_chars_app (f : ascii -> bool) (a b : string) :
  all_chars f (a ++ b) = all_chars f a && all_chars f b.
Proof.
  induction a as [|c a IH]; cbn [append all_chars]; [reflexivity|].
  now rewrite IH, andb_assoc.
Qed.

Lemma split_from_tokens (s : string) :
  forall cur, no_space cur = true ->
  Forall (fun t => t <> "" /\ no_space t = true) (split_from s cur).
Proof.
  induction s as [|c s IH]; intros cur Hc; cbn [split_from].
  - destruct (String.eqb_spec cur ""); [constructor|].
    constructor; [now split | constructor].
  - destruct (isspace_char c) eqn:E.
    + destruct (String.eqb_spec cur ""); [now apply IH|].
      constructor; [now split | now apply IH].
    + apply IH. unfold no_space in *. rewrite all_chars_app, Hc.
      cbn [all_chars]. now rewrite E.
Qed.

Lemma split_from_token (t rest : string) :
  no_space t = true ->
  forall cur, split_from (t ++ rest) cur = split_from rest (cur ++ t).
Proof.
  unfold no_space. induction t as [|c t IH]; intros Ht cur.
  - now rewrite append_nil_r.
  - cbn [all_chars] in Ht. apply andb_true_iff in Ht as [Hc Ht].
    apply negb_true_iff in Hc. cbn [append split_from]. rewrite Hc.
    rewrite (IH Ht). f_equal. now rewrite append_assoc.
Qed.

Lemma split_join (tokens : list string) :
  Forall (fun t => t <> "" /\ no_space t = true) tokens ->
  split (String.concat " " tokens) = tokens.
Proof.
  unfold split. induction 1 as [|t ts [Hne Hns] Hts IH]; [reflexivity|].
  destruct ts as [|t2 ts].
  - cbn [concat].
    replace (split_from t "") with (split_from (t ++ "") "")
      by now rewrite append_nil_r.
    rewrite (split_from_token t "" Hns).
    cbn [append split_from]. apply String.eqb_neq in Hne. now rewrite Hne.
  - change (String.concat " " (t :: t2 :: ts))
      with (t ++ String " " (String.concat " " (t2 :: ts))).
    rewrite (split_from_token t _ Hns). cbn [append split_from].
    change (isspace_char " ") with true. cbv iota.
    apply String.eqb_neq in Hne. rewrite Hne. now rewrite IH.
Qed.

Lemma lstrip_token (t : string) : no_space t = true -> lstrip t = t.
Proof.
  destruct t as [|c t]; [reflexivity|]. unfold no_space. cbn [all_chars lstrip].
  intros H. apply andb_true_iff in H as [H _]. apply negb_true_iff in H.
  now rewrite H.
Qed.

Lemma rstrip_token (t : string) : no_space t = true -> rstrip t = t.
Proof.
  unfold no_space. induction t as [|c t IH]; [reflexivity|].
  cbn [all_chars rstrip]. intros H. apply andb_true_iff in H as [Hc Ht].
  apply negb_true_iff in Hc. rewrite (IH Ht), Hc. now destruct t.
Qed.

Lemma strip_token (t : string) : no_space t = true -> strip t = t.
Proof.
  intros H. unfold strip. rewrite (lstrip_token t H). now apply rstrip_token.
Qed.

Lemma code_range (c : ascii) : 0 <= code c < 256.
Proof.
  unfold code. pose proof (N_ascii_bounded c) as B. lia.
Qed.

Lemma code_shift (c : ascii) :
  code c + 32 < 256 -> code (ascii_of_N (N_of_ascii c + 32)) = code c + 32.
Proof.
  unfold code. intros H. rewrite N_ascii_embedding by lia. lia.
Qed.

Lemma lower_char_code (c : ascii) :
  code (lower_char c) =
  if ((65 <=? code c) && (code c <=? 90)) ||
     ((192 <=? code c) && (code c <=? 222) && negb (code c =? 215))
  then code c + 32 else code c.
Proof.
  unfold lower_char.
  destruct (((65 <=? code c) && (code c <=? 90)) ||
            ((192 <=? code c) && (code c <=? 222) && negb (code c =? 215))) eqn:E;
    [|reflexivity].
  apply code_shift.
  apply orb_true_iff in E as [E|E];
    repeat (apply andb_true_iff in E as [E ?]);
    rewrite ?Z.leb_le in *; lia.
Qed.

Ltac by_codes :=
  repeat match goal with
  | |- context [?x <=? ?y] => destruct (Z.leb_spec x y)
  | |- context [?x =? ?y] => destruct (Z.eqb_spec x y)
  end; cbn [andb orb negb]; try reflexivity; try lia.

Ltac letter_cases c :=
  destruct (Z.leb_spec 65 (code c)), (Z.leb_spec (code c) 90),
           (Z.leb_spec 192 (code c)), (Z.leb_spec (code c) 222),
           (Z.eqb_spec (code c) 215);
  cbn [andb orb negb].

Lemma lower_char_idempotent (c : ascii) : lower_char (lower_char c) = lower_char c.
Proof.
  apply code_inj. rewrite (lower_char_code (lower_char c)).
  rewrite (lower_char_code c). letter_cases c; by_codes.
Qed.

Lemma lower_char_space (c : ascii) : isspace_char (lower_char c) = isspace_char c.
Proof.
  unfold isspace_char. rewrite (lower_char_code c). letter_cases c; by_codes.
Qed.

Lemma lower_idempotent (s : string) : lower (lower s) = lower s.
Proof.
  induction s as [|c s IH]; cbn [lower]; [reflexivity|].
  now rewrite lower_char_idempotent, IH.
Qed.

Lemma lower_no_space (s : string) : no_space (lower s) = no_space s.
Proof.
  unfold no_space. induction s as [|c s IH]; cbn [lower all_chars]; [reflexivity|].
  now rewrite lower_char_space, IH.
Qed.

Lemma lower_empty (s : string) : lower s = "" <-> s = "".
Proof. destruct s; cbn [lower]; split; try reflexivity; discriminate. Qed.

Lemma parse_input_parts (s : string) :
  parse_input s =
  match split s with
  | [] => ("", [])
  | p :: args => (lower (strip p), args)
  end.
Proof.
  unfold parse_input. destruct (split s) as [|p [|a args]]; try reflexivity.
  replace (1 <? Z.of_nat (List.length (p :: a :: args))) with true;
    [reflexivity|].
  symmetry. apply Z.ltb_lt. cbn [List.length]. lia.
Qed.

(** X20: whatever the line, the command [parse_input] returns contains no
    white space and is in lower case (lowering it again changes nothing),
    and every argument is a non-empty text without white space. *)
Theorem parse_input_tokens (s : string) :
  no_space (fst (parse_input s)) = true /\
  lower (fst (parse_input s)) = fst (parse_input s) /\
  Forall (fun t => t <> "" /\ no_space t = true) (snd (parse_input s)).
Proof.
  rewrite parse_input_parts.
  pose proof (split_from_tokens s "" eq_refl) as T. fold (split s) in T.
  destruct (split s) as [|p args]; cbn [fst snd].
  - repeat split. constructor.
  - inversion T as [|? ? [_ Hp] Ha]; subst.
    rewrite (strip_token p Hp).
    split; [now rewrite lower_no_space|]. split; [apply lower_idempotent | exact Ha].
Qed.

Lemma parse_input_of_line (t : string) (args : list string) :
  Forall (fun t => t <> "" /\ no_space t = true) (t :: args) ->
  parse_input (String.concat " " (t :: args)) = (lower t, args).
Proof.
  intros H. rewrite parse_input_parts, (split_join _ H).
  inversion H as [|? ? [_ Ht] _]; subst. now rewrite (strip_token t Ht).
Qed.

(** X21: a line made of a command word and arguments, none empty and none
    containing white space, joined by single blanks, is taken apart again
    into the lower-cased command word and exactly those arguments; the
    arguments come back unchanged, in their case and order. *)
Theorem parse_input_join (t : string) (args : list string) :
  Forall (fun t => t <> "" /\ no_space t = true) (t :: args) ->
  parse_input (String.concat " " (t :: args)) = (lower t, args) /\
  split (String.concat " " (t :: args)) = t :: args.
Proof.
  intros H. split; [now apply parse_input_of_line | now apply split_join].
Qed.

Lemma parse_input_join_witness :
  parse_input "ADD Bob 1234567890" = ("add", ["Bob"; "1234567890"]).
Proof.
  refine (proj1 (parse_input_join "ADD" ["Bob"; "1234567890"] _)).
  repeat constructor; discriminate.
Defined.

Lemma split_from_blank (s : string) :
  all_chars isspace_char s = true -> split_from s "" = [].
Proof.
  induction s as [|c s IH]; cbn [all_chars split_from]; [reflexivity|].
  intros H. apply andb_true_iff in H as [-> H]. cbn. now apply IH.
Qed.

(** X22: a line that is empty or all white space gives the empty command
    and no arguments; the turn answers "Invalid command.", leaves the book
    as it is and the loop goes on. *)
Theorem blank_line_is_invalid (clock : date) (s : string) (book : AddressBook) :
  all_chars isspace_char s = true ->
  parse_input s = ("", []) /\
  turn clock s book = (Printed "Invalid command.", book, true).
Proof.
  intros H.
  assert (P : parse_input s = ("", []))
    by (rewrite parse_input_parts; unfold split; now rewrite split_from_blank).
  split; [exact P|]. unfold turn. now rewrite P.
Qed.

Lemma blank_line_is_invalid_witness :
  turn monday_10_june "   " sample_book =
    (Printed "Invalid command.", sample_book, true).
Proof.
  exact (proj2 (blank_line_is_invalid monday_10_june "   " sample_book eq_refl)).
Defined.

(** X23: the command word is matched without regard to case: a line and
    the same line with its first word in lower case give the same turn. *)
Theorem command_case_insensitive (clock : date) (t : string)
    (args : list string) (book : AddressBook) :
  Forall (fun t => t <> "" /\ no_space t = true) (t :: args) ->
  turn clock (String.concat " " (t :: args)) book =
  turn clock (String.concat " " (lower t :: args)) book.
Proof.
  intros H. unfold turn. rewrite (parse_input_of_line t args H).
  assert (H' : Forall (fun t => t <> "" /\ no_space t = true) (lower t :: args)).
  { inversion H as [|? ? [Hne Hns] Ha]; subst. constructor; [|exact Ha].
    split; [now rewrite lower_empty | now rewrite lower_no_space]. }
  now rewrite (parse_input_of_line (lower t) args H'), lower_idempotent.
Qed.

Lemma command_case_insensitive_witness :
  turn monday_10_june "Phone Ann" sample_book =
  turn monday_10_june "phone Ann" sample_book.
Proof.
  refine (command_case_insensitive monday_10_june "Phone" ["Ann"] sample_book _).
  repeat constructor; discriminate.
Defined.

(** * Properties of a turn of the loop *)

Lemma input_error_fst {S : Type} (r : S * result string) :
  fst (input_error r) = fst r.
Proof.
  unfold input_error. destruct r as [s [t|[]]]; reflexivity.
Qed.

Lemma add_phone_name (self : ContactRecord) (x : string) :
  name (fst (add_phone self x)) = name self.
Proof. unfold add_phone. now destruct (Phone_init x). Qed.

Lemma edit_phone_name (self : ContactRecord) (x y : string) :
  name (fst (edit_phone self x y)) = name self.
Proof. now rewrite edit_phone_fields. Qed.

Lemma add_birthday_name (self : ContactRecord) (x : string) :
  name (fst (add_birthday self x)) = name self.
Proof. unfold add_birthday. now destruct (Birthday_init x). Qed.

Lemma dict_set_values_Forall (P : ContactRecord -> Prop) (k : string)
    (v : ContactRecord) (d : dict) :
  P v -> Forall P (dict_values d) -> Forall P (dict_values (dict_set k v d)).
Proof.
  intros Hv. induction d as [|[k' v'] d IH]; cbn [dict_set dict_values map snd].
  - now repeat constructor.
  - intros H. inversion H as [|? ? Hv' Hd]; subst.
    destruct (k' =? k)%string; cbn [map snd]; constructor; auto.
Qed.

Lemma write_back_valid (book : AddressBook) (n : string) (r : ContactRecord)
    (t : option date) :
  valid_book book -> value (name r) = n -> valid_record r ->
  valid_book (mkBook (dict_set n r (data book)) t).
Proof.
  intros [[Hk Hnd] Hv] Hn Hr. split; cbn [data].
  - split; [|now apply dict_set_NoDup].
    intros k x Hin. apply dict_set_In in Hin as [[-> ->]|Hin]; [exact Hn|].
    now apply Hk.
  - now apply dict_set_values_Forall.
Qed.

Lemma find_record_valid (book : AddressBook) (n : string) (r : ContactRecord) :
  valid_book book -> find_record book n = Some r ->
  value (name r) = n /\ valid_record r.
Proof.
  intros [[Hk _] Hv] F. apply dict_get_In in F. split; [now apply Hk|].
  rewrite Forall_forall in Hv. apply Hv. unfold dict_values.
  change r with (snd (n, r)). now apply in_map.
Qed.

Lemma add_contact_keeps_valid (args : list string) (book : AddressBook) :
  valid_book book -> valid_book (fst (add_contact args book)).
Proof.
  intros V. unfold add_contact. rewrite input_error_fst.
  unfold add_contact_body. destruct args as [|n [|phone rest]]; try exact V.
  destruct (find_record book n) as [r|] eqn:F.
  - destruct (find_record_valid book n r V F) as [Hn Hr].
    pose proof (add_phone_name r phone) as N.
    pose proof (add_phone_keeps_valid r phone Hr) as K.
    destruct (add_phone r phone) as [r' o]. cbn [fst] in *.
    destruct o; cbn [fst]; apply write_back_valid; auto; now rewrite N.
  - pose proof (add_phone_name (Record_init n) phone) as N.
    assert (Hr : valid_record (Record_init n))
      by (split; [constructor | discriminate]).
    pose proof (add_phone_keeps_valid _ phone Hr) as K.
    assert (V1 : valid_book (add_record book (Record_init n)))
      by (apply write_back_valid; auto).
    destruct (add_phone (Record_init n) phone) as [r' o]. cbn [fst] in *.
    destruct o; cbn [fst]; apply write_back_valid; auto; now rewrite N.
Qed.

Lemma change_contact_keeps_valid (args : list string) (book : AddressBook) :
  valid_book book -> valid_book (fst (change_contact args book)).
Proof.
  intros V. unfold change_contact. rewrite input_error_fst.
  unfold change_contact_body.
  destruct args as [|n [|old [|new rest]]]; try exact V.
  destruct (find_record book n) as [r|] eqn:F; [|exact V].
  destruct (find_record_valid book n r V F) as [Hn Hr].
  pose proof (edit_phone_name r old new) as N.
  pose proof (edit_phone_keeps_valid r old new Hr) as K.
  destruct (edit_phone r old new) as [r' o]. cbn [fst] in *.
  destruct o; cbn [fst]; apply write_back_valid; auto; now rewrite N.
Qed.

Lemma add_birthday_command_keeps_valid (args : list string) (book : AddressBook) :
  valid_book book -> valid_book (fst (add_birthday_command args book)).
Proof.
  intros V. unfold add_birthday_command. rewrite input_error_fst.
  unfold add_birthday_command_body.
  destruct args as [|n [|b rest]]; try exact V.
  destruct (find_record book n) as [r|] eqn:F; [|exact V].
  destruct (find_record_valid book n r V F) as [Hn Hr].
  pose proof (add_birthday_name r b) as N.
  pose proof (add_birthday_keeps_valid r b Hr) as K.
  destruct (add_birthday r b) as [r' o]. cbn [fst] in *.
  destruct o; cbn [fst]; apply write_back_valid; auto; now rewrite N.
Qed.

Lemma show_phones_book (args : list string) (book : AddressBook) :
  fst (show_phones args book) = book.
Proof.
  unfold show_phones. rewrite input_error_fst. unfold show_phones_body.
  destruct args as [|n rest]; [reflexivity|]. now destruct (find_record book n).
Qed.

Lemma show_birthday_book (args : list string) (book b : AddressBook)
    (r : result string) :
  show_birthday args book = inr (b, r) -> b = book.
Proof.
  unfold show_birthday. destruct args as [|n rest]; [discriminate|].
  intros H. inversion H as [E].
  assert (Hb : b = fst (input_error (show_birthday_body n book))) by now rewrite E.
  rewrite Hb, input_error_fst. unfold show_birthday_body.
  destruct (find_record book n) as [x|]; [destruct (birthday x)|]; reflexivity.
Qed.

Lemma birthdays_book (clock : date) (args : list string) (book : AddressBook) :
  fst (birthdays clock args book) = mkBook (data book) (Some clock).
Proof.
  unfold birthdays. rewrite input_error_fst. unfold birthdays_body.
  unfold find_next_birthday.
  now destruct (next_birthday_loop clock _ []).
Qed.

(** The book a turn leaves is the one it found, or the one that one of the
    three writing commands leaves, or the one found with the clock's date
    noted on it. *)
Lemma turn_book_cases (clock : date) (s : string) (book : AddressBook) :
  snd (fst (turn clock s book)) = book \/
  (fst (parse_input s) = "add" /\
   snd (fst (turn clock s book)) = fst (add_contact (snd (parse_input s)) book)) \/
  (fst (parse_input s) = "change" /\
   snd (fst (turn clock s book)) = fst (change_contact (snd (parse_input s)) book)) \/
  (fst (parse_input s) = "add-birthday" /\
   snd (fst (turn clock s book)) =
     fst (add_birthday_command (snd (parse_input s)) book)) \/
  (fst (parse_input s) = "birthdays" /\
   snd (fst (turn clock s book)) = mkBook (data book) (Some clock)).
Proof.
  unfold turn. destruct (parse_input s) as [command args]. cbn [fst snd].
  destruct ((command =? "close")%string || (command =? "exit")%string);
    [now left|].
  destruct (command =? "hello")%string; [now left|].
  destruct (String.eqb_spec command "add") as [->|_].
  { right; left. split; [reflexivity|]. now destruct (add_contact args book). }
  destruct (String.eqb_spec command "change") as [->|_].
  { right; right; left. split; [reflexivity|].
    now destruct (change_contact args book). }
  destruct (String.eqb_spec command "phone") as [->|_].
  { left. pose proof (show_phones_book args book) as H.
    now destruct (show_phones args book). }
  destruct (String.eqb_spec command "all") as [->|_]; [now left|].
  destruct (String.eqb_spec command "add-birthday") as [->|_].
  { right; right; right; left. split; [reflexivity|].
    now destruct (add_birthday_command args book). }
  destruct (String.eqb_spec command "show-birthday") as [->|_].
  { left. destruct (show_birthday args book) as [e|[b r]] eqn:E; [reflexivity|].
    cbn [fst snd]. now apply (show_birthday_book args book b r). }
  destruct (String.eqb_spec command "birthdays") as [->|_]; [|now left].
  right; right; right; right. split; [reflexivity|].
  pose proof (birthdays_book clock args book) as H.
  now destruct (birthdays clock args book).
Qed.

Lemma turn_valid (clock : date) (s : string) (book : AddressBook) :
  valid_book book -> valid_book (snd (fst (turn clock s book))).
Proof.
  intros V.
  destruct (turn_book_cases clock s book)
    as [->|[[_ ->]|[[_ ->]|[[_ ->]|[_ ->]]]]].
  - exact V.
  - now apply add_contact_keeps_valid.
  - now apply change_contact_keeps_valid.
  - now apply add_birthday_command_keeps_valid.
  - exact V.
Qed.

(** X24: a book in which every record is stored under its own name, no
    name twice, every phone is ten digits and every birthday a date text
    stays such a book through every turn of the loop, whatever the line and
    the clock and whether the turn prints or ends in an exception; so it
    does through any sequence of turns. *)
Theorem turns_keep_valid (inputs : list (date * string)) (book : AddressBook) :
  valid_book book ->
  valid_book (turns inputs book) /\
  (forall clock s, valid_book (snd (fst (turn clock s book)))).
Proof.
  intros V. split; [|intros clock s; now apply turn_valid].
  revert book V. induction inputs as [|[clock s] rest IH]; intros book V;
    cbn [turns]; [exact V|].
  pose proof (turn_valid clock s book V) as V'.
  destruct (turn clock s book) as [[rep b] goes_on]. cbn [fst snd] in V'.
  destruct goes_on; [now apply IH | exact V'].
Qed.

Lemma turns_keep_valid_witness :
  valid_book
    (turns [(monday_10_june, "add Ann 1234567890");
            (monday_10_june, "change Ann 1234567890 123");
            (monday_10_june, "add-birthday Ann 1.2.1990")] AddressBook_init).
Proof.
  refine (proj1 (turns_keep_valid _ AddressBook_init _)).
  split; [split; [intros k r [] | constructor] | constructor].
Defined.

Lemma dict_set_keeps_keys (k : string) (v : ContactRecord) (d : dict) :
  incl (dict_keys d) (dict_keys (dict_set k v d)).
Proof.
  rewrite dict_set_keys. destruct (in_dec string_dec k (dict_keys d));
    [apply incl_refl | apply incl_appl, incl_refl].
Qed.

Lemma add_contact_keeps_keys (args : list string) (book : AddressBook) :
  incl (dict_keys (data book)) (dict_keys (data (fst (add_contact args book)))).
Proof.
  unfold add_contact. rewrite input_error_fst. unfold add_contact_body.
  destruct args as [|n [|phone rest]]; try apply incl_refl.
  destruct (find_record book n) as [r|];
    [destruct (add_phone r phone) as [r' o]
    |destruct (add_phone (Record_init n) phone) as [r' o]];
    destruct o; cbn [fst data add_record];
    repeat (eapply incl_tran; [|apply dict_set_keeps_keys]); apply incl_refl.
Qed.

Lemma change_contact_keeps_keys (args : list string) (book : AddressBook) :
  incl (dict_keys (data book)) (dict_keys (data (fst (change_contact args book)))).
Proof.
  unfold change_contact. rewrite input_error_fst. unfold change_contact_body.
  destruct args as [|n [|old [|new rest]]]; try apply incl_refl.
  destruct (find_record book n) as [r|]; [|apply incl_refl].
  destruct (edit_phone r old new) as [r' o].
  destruct o; cbn [fst data]; apply dict_set_keeps_keys.
Qed.

Lemma add_birthday_command_keeps_keys (args : list string) (book : AddressBook) :
  incl (dict_keys (data book))
       (dict_keys (data (fst (add_birthday_command args book)))).
Proof.
  unfold add_birthday_command. rewrite input_error_fst.
  unfold add_birthday_command_body.
  destruct args as [|n [|b rest]]; try apply incl_refl.
  destruct (find_record book n) as [r|]; [|apply incl_refl].
  destruct (add_birthday r b) as [r' o].
  destruct o; cbn [fst data]; apply dict_set_keeps_keys.
Qed.

(** X25: no turn of the loop removes a contact: every name the book holds
    before a turn it still holds after it (no command calls [delete]); and
    only the commands add, change and add-birthday can change what is
    stored at all. *)
Theorem turn_never_removes (clock : date) (s : string) (book : AddressBook) :
  incl (dict_keys (data book))
       (dict_keys (data (snd (fst (turn clock s book))))) /\
  (data (snd (fst (turn clock s book))) = data book \/
   fst (parse_input s) = "add" \/ fst (parse_input s) = "change" \/
   fst (parse_input s) = "add-birthday").
Proof.
  destruct (turn_book_cases clock s book)
    as [->|[[E ->]|[[E ->]|[[E ->]|[_ ->]]]]].
  - split; [apply incl_refl | now left].
  - split; [apply add_contact_keeps_keys | tauto].
  - split; [apply change_contact_keeps_keys | tauto].
  - split; [apply add_birthday_command_keeps_keys | tauto].
  - split; [apply incl_refl | now left].
Qed.

Lemma dict_del_last (k : string) (v : ContactRecord) (d : dict) :
  dict_get k d = None -> dict_del k (d ++ [(k, v)])%list = Some d.
Proof.
  induction d as [|[k' v'] d IH]; cbn [dict_get dict_del app].
  - now rewrite String.eqb_refl.
  - destruct (k' =? k)%string; [discriminate|].
    intros H. now rewrite (IH H).
Qed.

(** X26: adding a record under a name the book does not hold and then
    deleting that name gives back the book as it was, entries and order,
    and the delete returns without raising. *)
Theorem add_record_then_delete (book : AddressBook) (record : ContactRecord) :
  find_record book (value (name record)) = None ->
  delete (add_record book record) (value (name record)) = (book, Ok tt).
Proof.
  intros F. unfold delete, add_record. cbn [data today].
  rewrite (dict_set_absent _ _ _ F), (dict_del_last _ _ _ F).
  now destruct book.
Qed.

Lemma add_record_then_delete_witness :
  delete (add_record sample_book (Record_init "Zed")) "Zed" = (sample_book, Ok tt).
Proof.
  exact (add_record_then_delete sample_book (Record_init "Zed") eq_refl).
Defined.
